(** * Image template matching: the botjs wrapper and its wait primitives

    A shallow embedding of [packages/botjs/src/image-match.ts] and of
    the commands of [packages/bot-cli] that call its exports.

    Conventions of the embedding:
    - pixel coordinates and millisecond counts are integers ([Z]);
      confidence and scale are exact rationals ([Q]);
    - optional fields and [null]/[undefined] are [option];
    - a call that may throw yields a [Completion];
    - the clock, the native search and the timer are an environment
      ([Env]) that the code consults; what the code did is recorded in
      the [trace] of the [World]. *)

From Stdlib Require Import ZArith QArith Qround Qabs List Bool Lia Lqa.
From Stdlib Require Import Strings.Byte Strings.String.
Import ListNotations.

Local Open Scope Z_scope.

(* ================================================================== *)
(** ** Types *)

(** A Node [Buffer]. *)
Definition Buffer := list byte.

(** [interface MatchConfig]: every field is optional. *)
Module MatchConfig.
Record t := mk {
    searchMultipleScales : option bool;
    useGrayscale : option bool;
    scaleSteps : option (list Q);
    confidence : option Q;
    limit : option Z
  }.
End MatchConfig.

(** [interface MatchResult]. *)
Module MatchResult.
Record t := mk {
    x : Z;
    y : Z;
    width : Z;
    height : Z;
    confidence : Q;
    scale : Q
  }.
End MatchResult.

(** [interface ImageResource]: [path] is optional. *)
Module ImageResource.
Record t := mk {
    buffer : Buffer;
    path : option string
  }.
End ImageResource.

(** The return type of [getMatchCenter]. *)
Module Point.
Record t := mk { x : Z; y : Z }.
End Point.

(** The return type of [getMatchBounds]. *)
Module Bounds.
Record t := mk { left : Z; top : Z; right : Z; bottom : Z }.
End Bounds.

(** Errors that cross the boundary of the engine. *)
Inductive JsError :=
| ValidationError
| BoundsError
| IOError
| DecodeError
| OtherError (msg : string).

(** How a call ends: it returns a value or it throws. *)
Inductive Completion (A : Type) :=
| Return (a : A)
| Throw (e : JsError).
Arguments Return {A} a.
Arguments Throw {A} e.

(* ================================================================== *)
(** ** The native binding [@tego/bot] as the wrapper sees it *)

Module bot.
Module MatchConfigJs.
Record t := mk {
      searchMultipleScales : option bool;
      useGrayscale : option bool;
      scaleSteps : option (list Q);
      confidence : option Q;
      limit : option Z
    }.
End MatchConfigJs.

Module MatchResultJs.
Record t := mk {
      x : Z;
      y : Z;
      width : Z;
      height : Z;
      confidence : Q;
      scale : Q
    }.
End MatchResultJs.
End bot.

(* ================================================================== *)
(** ** Image loading *)

(** [imageResourceFromBuffer(buffer)]: [return { buffer }]. *)
Definition imageResourceFromBuffer (buffer : Buffer) : ImageResource.t :=
  {| ImageResource.buffer := buffer; ImageResource.path := None |}.

(** [imageResourceSync(path)], over a file system [readFileSync]. *)
Definition imageResourceSync
    (readFileSync : string -> Completion Buffer) (path : string)
  : Completion ImageResource.t :=
  match readFileSync path with
  | Return buffer =>
      Return {| ImageResource.buffer := buffer;
                ImageResource.path := Some path |}
  | Throw e => Throw e
  end.

(* ================================================================== *)
(** ** Conversions to and from the native records *)

Definition toMatchConfigJs (config : option MatchConfig.t)
  : option bot.MatchConfigJs.t :=
  match config with
  | None => None
  | Some config =>
      Some {| bot.MatchConfigJs.searchMultipleScales :=
                MatchConfig.searchMultipleScales config;
              bot.MatchConfigJs.useGrayscale :=
                MatchConfig.useGrayscale config;
              bot.MatchConfigJs.scaleSteps := MatchConfig.scaleSteps config;
              bot.MatchConfigJs.confidence := MatchConfig.confidence config;
              bot.MatchConfigJs.limit := MatchConfig.limit config |}
  end.

Definition fromMatchResultJs (result : bot.MatchResultJs.t) : MatchResult.t :=
  {| MatchResult.x := bot.MatchResultJs.x result;
     MatchResult.y := bot.MatchResultJs.y result;
     MatchResult.width := bot.MatchResultJs.width result;
     MatchResult.height := bot.MatchResultJs.height result;
     MatchResult.confidence := bot.MatchResultJs.confidence result;
     MatchResult.scale := bot.MatchResultJs.scale result |}.

(* ================================================================== *)
(** ** Utility functions *)

(** [Math.round]: the nearest integer, a tie going up. *)
Definition Math_round (q : Q) : Z := Qfloor (q + (1 # 2))%Q.

(** The JS expression [a + b / 2] on integer-valued numbers. *)
Definition plus_half (a b : Z) : Q := (inject_Z a + inject_Z b / 2)%Q.

Definition getMatchCenter (match_ : MatchResult.t) : Point.t :=
  {| Point.x :=
       Math_round (plus_half (MatchResult.x match_) (MatchResult.width match_));
     Point.y :=
       Math_round (plus_half (MatchResult.y match_) (MatchResult.height match_))
  |}.

Definition getMatchBounds (match_ : MatchResult.t) : Bounds.t :=
  {| Bounds.left := MatchResult.x match_;
     Bounds.top := MatchResult.y match_;
     Bounds.right := MatchResult.x match_ + MatchResult.width match_;
     Bounds.bottom := MatchResult.y match_ + MatchResult.height match_ |}.

(** What "rounding to the nearest integer" asks of a result [z] for [q]:
    no integer is closer to [q]. *)
Definition nearest_integer (q : Q) (z : Z) : Prop :=
  forall z' : Z, (Qabs (q - inject_Z z) <= Qabs (q - inject_Z z'))%Q.

(* ================================================================== *)
(** ** The world the asynchronous code runs in *)

(** What the code asked of its environment. *)
Inductive Event :=
| EvNow (t : Z)
| EvFindOnScreen (buffer : Buffer) (config : option bot.MatchConfigJs.t)
    (outcome : Completion (option bot.MatchResultJs.t))
| EvFindAllOnScreen (buffer : Buffer) (config : option bot.MatchConfigJs.t)
    (outcome : Completion (list bot.MatchResultJs.t))
| EvFindInRegion (buffer : Buffer) (x y width height : Z)
    (config : option bot.MatchConfigJs.t)
    (outcome : Completion (option bot.MatchResultJs.t))
| EvFindAllInRegion (buffer : Buffer) (x y width height : Z)
    (config : option bot.MatchConfigJs.t)
    (outcome : Completion (list bot.MatchResultJs.t))
| EvSleep (ms : Z).

(** The environment answers by position: [clock k] is what the [k]-th
    [Date.now()] returns, [native_findOnScreen k] (and likewise the other
    three) how the [k]-th native search ends when it is that call. *)
Record Env := {
  clock : nat -> Z;
  native_findOnScreen :
    nat -> Buffer -> option bot.MatchConfigJs.t ->
    Completion (option bot.MatchResultJs.t);
  native_findAllOnScreen :
    nat -> Buffer -> option bot.MatchConfigJs.t ->
    Completion (list bot.MatchResultJs.t);
  native_findInRegion :
    nat -> Buffer -> Z -> Z -> Z -> Z -> option bot.MatchConfigJs.t ->
    Completion (option bot.MatchResultJs.t);
  native_findAllInRegion :
    nat -> Buffer -> Z -> Z -> Z -> Z -> option bot.MatchConfigJs.t ->
    Completion (list bot.MatchResultJs.t)
}.

(** How far the run has got; [trace] has the most recent event first. *)
Record World := {
  clock_reads : nat;
  searches : nat;
  trace : list Event
}.

Definition initial_world : World :=
  {| clock_reads := 0; searches := 0; trace := [] |}.

(** An asynchronous computation: from a world to a new world and a
    completion, or [None] when the fuel of a loop is used up. *)
Definition Eff (A : Type) : Type := World -> option (World * Completion A).

Definition ret {A} (a : A) : Eff A := fun w => Some (w, Return a).

Definition bind {A B} (m : Eff A) (k : A -> Eff B) : Eff B :=
  fun w =>
    match m w with
    | None => None
    | Some (w', Return a) => k a w'
    | Some (w', Throw e) => Some (w', Throw e)
    end.

Definition out_of_fuel {A} : Eff A := fun _ => None.

Notation "x <- m ;; k" := (bind m (fun x => k))
  (at level 61, m at next level, right associativity).

(** A parameter with a default value: the default stands in for
    [undefined]. *)
Definition or_default (d : Z) (arg : option Z) : Z :=
  match arg with
  | Some v => v
  | None => d
  end.

Section Wrapper.
Variable env : Env.

(** [Date.now()]. *)
Definition Date_now : Eff Z :=
  fun w =>
    let t := clock env (clock_reads w) in
    Some ({| clock_reads := S (clock_reads w);
             searches := searches w;
             trace := EvNow t :: trace w |}, Return t).

(** [sleep(ms)]: a promise resolved by [setTimeout]. *)
Definition sleep (ms : Z) : Eff unit :=
  fun w =>
    Some ({| clock_reads := clock_reads w;
             searches := searches w;
             trace := EvSleep ms :: trace w |}, Return tt).

(** [bot.findOnScreen(buffer, config)]. *)
Definition bot_findOnScreen (buffer : Buffer)
    (config : option bot.MatchConfigJs.t) : Eff (option bot.MatchResultJs.t) :=
  fun w =>
    let outcome := native_findOnScreen env (searches w) buffer config in
    Some ({| clock_reads := clock_reads w;
             searches := S (searches w);
             trace := EvFindOnScreen buffer config outcome :: trace w |},
          outcome).

(** [bot.findAllOnScreen(buffer, config)]. *)
Definition bot_findAllOnScreen (buffer : Buffer)
    (config : option bot.MatchConfigJs.t) : Eff (list bot.MatchResultJs.t) :=
  fun w =>
    let outcome := native_findAllOnScreen env (searches w) buffer config in
    Some ({| clock_reads := clock_reads w;
             searches := S (searches w);
             trace := EvFindAllOnScreen buffer config outcome :: trace w |},
          outcome).

Definition findOnScreen (template : ImageResource.t)
    (config : option MatchConfig.t) : Eff (option MatchResult.t) :=
  result <- bot_findOnScreen (ImageResource.buffer template)
              (toMatchConfigJs config) ;;
  ret (match result with
       | Some result => Some (fromMatchResultJs result)
       | None => None
       end).

Definition findAllOnScreen (template : ImageResource.t)
    (config : option MatchConfig.t) : Eff (list MatchResult.t) :=
  results <- bot_findAllOnScreen (ImageResource.buffer template)
               (toMatchConfigJs config) ;;
  ret (map fromMatchResultJs results).

(** [bot.findInRegion(buffer, x, y, width, height, config)]. *)
Definition bot_findInRegion (buffer : Buffer) (x y width height : Z)
    (config : option bot.MatchConfigJs.t) : Eff (option bot.MatchResultJs.t) :=
  fun w =>
    let outcome :=
      native_findInRegion env (searches w) buffer x y width height config in
    Some ({| clock_reads := clock_reads w;
             searches := S (searches w);
             trace := EvFindInRegion buffer x y width height config outcome
                      :: trace w |},
          outcome).

(** [bot.findAllInRegion(buffer, x, y, width, height, config)]. *)
Definition bot_findAllInRegion (buffer : Buffer) (x y width height : Z)
    (config : option bot.MatchConfigJs.t) : Eff (list bot.MatchResultJs.t) :=
  fun w =>
    let outcome :=
      native_findAllInRegion env (searches w) buffer x y width height config in
    Some ({| clock_reads := clock_reads w;
             searches := S (searches w);
             trace := EvFindAllInRegion buffer x y width height config outcome
                      :: trace w |},
          outcome).

Definition findInRegion (template : ImageResource.t) (x y width height : Z)
    (config : option MatchConfig.t) : Eff (option MatchResult.t) :=
  result <- bot_findInRegion (ImageResource.buffer template)
              x y width height (toMatchConfigJs config) ;;
  ret (match result with
       | Some result => Some (fromMatchResultJs result)
       | None => None
       end).

Definition findAllInRegion (template : ImageResource.t) (x y width height : Z)
    (config : option MatchConfig.t) : Eff (list MatchResult.t) :=
  results <- bot_findAllInRegion (ImageResource.buffer template)
               x y width height (toMatchConfigJs config) ;;
  ret (map fromMatchResultJs results).

(** The [while] loop of [waitFor]; [fuel] bounds the number of times the
    loop condition is evaluated. *)
Fixpoint waitFor_while (fuel : nat) (startTime timeout interval : Z)
    (template : ImageResource.t) (config : option MatchConfig.t)
  : Eff (option MatchResult.t) :=
  match fuel with
  | O => out_of_fuel
  | S fuel' =>
      now <- Date_now ;;
      if now - startTime <? timeout then
        match_ <- findOnScreen template config ;;
        match match_ with
        | Some m => ret (Some m)
        | None =>
            _ <- sleep interval ;;
            waitFor_while fuel' startTime timeout interval template config
        end
      else ret None
  end.

Definition waitFor (fuel : nat) (template : ImageResource.t)
    (timeout interval : option Z) (config : option MatchConfig.t)
  : Eff (option MatchResult.t) :=
  let timeout := or_default 10000 timeout in
  let interval := or_default 500 interval in
  startTime <- Date_now ;;
  waitFor_while fuel startTime timeout interval template config.

(** The [while] loop of [waitForGone]. *)
Fixpoint waitForGone_while (fuel : nat) (startTime timeout interval : Z)
    (template : ImageResource.t) (config : option MatchConfig.t)
  : Eff bool :=
  match fuel with
  | O => out_of_fuel
  | S fuel' =>
      now <- Date_now ;;
      if now - startTime <? timeout then
        match_ <- findOnScreen template config ;;
        match match_ with
        | None => ret true
        | Some _ =>
            _ <- sleep interval ;;
            waitForGone_while fuel' startTime timeout interval template config
        end
      else ret false
  end.

Definition waitForGone (fuel : nat) (template : ImageResource.t)
    (timeout interval : option Z) (config : option MatchConfig.t)
  : Eff bool :=
  let timeout := or_default 10000 timeout in
  let interval := or_default 500 interval in
  startTime <- Date_now ;;
  waitForGone_while fuel startTime timeout interval template config.

(** The events of [n] rounds of a wait loop that each went on to sleep,
    the first of them reading the clock at position [reads] and searching
    at position [calls]; most recent first. *)
Fixpoint rounds (template : ImageResource.t) (config : option MatchConfig.t)
    (interval : Z) (reads calls n : nat) : list Event :=
  match n with
  | O => []
  | S n' =>
      rounds template config interval (S reads) (S calls) n'
      ++ [ EvSleep interval;
           EvFindOnScreen (ImageResource.buffer template)
             (toMatchConfigJs config)
             (native_findOnScreen env calls (ImageResource.buffer template)
                (toMatchConfigJs config));
           EvNow (clock env reads) ]
  end.

(** The world after a round whose search was decisive, when the round
    began in [w]: the clock was read, the search ended as [outcome], and
    no sleep followed. *)
Definition after_search (template : ImageResource.t)
    (config : option MatchConfig.t) (w : World)
    (outcome : Completion (option bot.MatchResultJs.t)) : World :=
  {| clock_reads := S (clock_reads w);
     searches := S (searches w);
     trace := EvFindOnScreen (ImageResource.buffer template)
                (toMatchConfigJs config) outcome
              :: EvNow (clock env (clock_reads w)) :: trace w |}.

(** The world after those [n] rounds. *)
Definition after_rounds (template : ImageResource.t)
    (config : option MatchConfig.t) (interval : Z) (n : nat) (w : World)
  : World :=
  {| clock_reads := n + clock_reads w;
     searches := n + searches w;
     trace := rounds template config interval (clock_reads w) (searches w) n
              ++ trace w |}.

End Wrapper.

(* ================================================================== *)
(** ** The native engine behind [@tego/bot]

    The native search ([bot.findOnScreen], [bot.findAllOnScreen],
    [bot.findInRegion], [bot.findAllInRegion]) is Rust code outside the
    TypeScript package embedded above; the module below follows
    sections 4.2 to 4.6 of the specification. *)

Module Engine.

(** Modelled from the spec: the external collaborators of the native
    engine (capture provider, image codec, resampling, the similarity
    metric with its local non-maximum suppression, and the overlap test
    of the aggregator), none of which the specification fixes. *)
Record Imaging := {
  Image : Type;
  Scene : Type;
  screen_width : Scene -> Z;
  screen_height : Scene -> Z;
  capture : Scene -> option (Z * Z * Z * Z) -> Completion Image;
  decode : Buffer -> option Image;
  img_width : Image -> Z;
  img_height : Image -> Z;
  resize : Image -> Z -> Z -> Image;
  luminance : Image -> Image;
  local_maxima : Image -> Image -> list (Z * Z * Q);
  overlaps : bot.MatchResultJs.t -> bot.MatchResultJs.t -> bool
}.

(** Modelled from the spec: the fully defaulted configuration that the
    native Config Normalizer produces (section 3, MatchConfig). *)
Record Config := {
  searchMultipleScales : bool;
  useGrayscale : bool;
  scaleSteps : list Q;
  confidence : Q;
  limit : Z
}.

(** Modelled from the spec: the default scale steps of the native
    configuration, [1.0, 0.9, 0.8, 0.7, 0.6, 0.5]. *)
Definition default_scaleSteps : list Q :=
  [1; 9 # 10; 8 # 10; 7 # 10; 6 # 10; 5 # 10]%Q.

(** Modelled from the spec: a default for an absent field of the native
    configuration. *)
Definition field {A B} (get : bot.MatchConfigJs.t -> option A)
    (config : option bot.MatchConfigJs.t) (d : A) (k : A -> B) : B :=
  match config with
  | Some c => match get c with Some v => k v | None => k d end
  | None => k d
  end.

(** Modelled from the spec: the native Config Normalizer (section 4.2):
    defaults, then [ValidationError] when [confidence] is outside [0,1],
    [limit <= 0], or multi-scale search has an empty or non-positive
    scale step. *)
Definition normalize (config : option bot.MatchConfigJs.t)
  : Completion Config :=
  field bot.MatchConfigJs.searchMultipleScales config true (fun sms =>
  field bot.MatchConfigJs.useGrayscale config false (fun gray =>
  field bot.MatchConfigJs.scaleSteps config default_scaleSteps (fun steps =>
  field bot.MatchConfigJs.confidence config (8 # 10)%Q (fun conf =>
  field bot.MatchConfigJs.limit config 100 (fun lim =>
    if negb (Qle_bool 0 conf && Qle_bool conf 1) then Throw ValidationError
    else if lim <=? 0 then Throw ValidationError
    else if sms && (match steps with [] => true | _ => false end
                    || existsb (fun s => Qle_bool s 0) steps)
         then Throw ValidationError
    else Return {| searchMultipleScales := sms;
                   useGrayscale := gray;
                   scaleSteps := steps;
                   confidence := conf;
                   limit := lim |}))))).

(** Modelled from the spec: sequencing of native steps that may fail; an
    error is surfaced unmodified (section 7). *)
Definition and_then {A B} (c : Completion A) (k : A -> Completion B)
  : Completion B :=
  match c with
  | Return a => k a
  | Throw e => Throw e
  end.

Section Pipeline.
Variable I : Imaging.

(** Modelled from the spec: a scaled template dimension of the native
    Scale Space Generator, rounded to the nearest integer, at least 1. *)
Definition scaled_dim (d : Z) (s : Q) : Z :=
  Z.max 1 (Math_round (inject_Z d * s)%Q).

(** Modelled from the spec: the native Scale Space Generator (section
    4.3): scale 1.0 alone without multi-scale search, else one scaled
    template per scale step, skipping those larger than the haystack. *)
Definition scale_space (cfg : Config) (template haystack : Image I)
  : list (Q * Image I) :=
  if negb (searchMultipleScales cfg) then [(1%Q, template)]
  else
    flat_map
      (fun s =>
         let w := scaled_dim (img_width I template) s in
         let h := scaled_dim (img_height I template) s in
         if (img_width I haystack <? w) || (img_height I haystack <? h)
         then []
         else [(s, resize I template w h)])
      (scaleSteps cfg).

(** Modelled from the spec: the candidate the native Matcher emits for a
    surviving local maximum (section 4.4). *)
Definition candidate (s : Q) (scaled : Image I) (p : Z * Z * Q)
  : bot.MatchResultJs.t :=
  let '(px, py, score) := p in
  {| bot.MatchResultJs.x := px;
     bot.MatchResultJs.y := py;
     bot.MatchResultJs.width := img_width I scaled;
     bot.MatchResultJs.height := img_height I scaled;
     bot.MatchResultJs.confidence := score;
     bot.MatchResultJs.scale := s |}.

(** Modelled from the spec: the native Matcher (section 4.4) for one
    scaled template: optional grayscale on both images, the surviving
    local maxima of the similarity, and only the candidates whose
    confidence reaches the configured one. *)
Definition matcher (cfg : Config) (haystack : Image I) (st : Q * Image I)
  : list bot.MatchResultJs.t :=
  let '(s, scaled) := st in
  let hay := if useGrayscale cfg then luminance I haystack else haystack in
  let tpl := if useGrayscale cfg then luminance I scaled else scaled in
  filter
    (fun c => Qle_bool (confidence cfg) (bot.MatchResultJs.confidence c))
    (map (candidate s scaled) (local_maxima I hay tpl)).

(** Modelled from the spec: cross-scale non-maximum suppression of the
    native Result Aggregator (section 4.5): of two overlapping
    candidates only the higher-confidence one is kept. *)
Definition suppress (cands : list bot.MatchResultJs.t)
  : list bot.MatchResultJs.t :=
  filter
    (fun c =>
       negb (existsb
               (fun d =>
                  overlaps I c d
                  && negb (Qle_bool (bot.MatchResultJs.confidence d)
                             (bot.MatchResultJs.confidence c)))
               cands))
    cands.

(** Modelled from the spec: the ranking order of the native Result
    Aggregator: confidence descending, a tie going to the scale closer
    to 1.0. *)
Definition ranks_before (a b : bot.MatchResultJs.t) : bool :=
  negb (Qle_bool (bot.MatchResultJs.confidence a)
          (bot.MatchResultJs.confidence b))
  || (Qeq_bool (bot.MatchResultJs.confidence a)
        (bot.MatchResultJs.confidence b)
      && Qle_bool (Qabs (bot.MatchResultJs.scale a - 1))
           (Qabs (bot.MatchResultJs.scale b - 1))).

(** Modelled from the spec: insertion into a ranked list, for the sort
    of the native Result Aggregator. *)
Fixpoint insert_ranked (c : bot.MatchResultJs.t)
    (l : list bot.MatchResultJs.t) : list bot.MatchResultJs.t :=
  match l with
  | [] => [c]
  | d :: l' =>
      if ranks_before c d then c :: d :: l'
      else d :: insert_ranked c l'
  end.

(** Modelled from the spec: the sort of the native Result Aggregator. *)
Definition rank (l : list bot.MatchResultJs.t) : list bot.MatchResultJs.t :=
  fold_right insert_ranked [] l.

(** Modelled from the spec: the native Result Aggregator (section 4.5):
    suppress, sort, truncate to [limit]. *)
Definition aggregate (cfg : Config) (cands : list bot.MatchResultJs.t)
  : list bot.MatchResultJs.t :=
  firstn (Z.to_nat (limit cfg)) (rank (suppress cands)).

(** Modelled from the spec: the native region check of section 4.6:
    positive dimensions and a region inside the screen. *)
Definition region_ok (scene : Scene I) (x y w h : Z) : bool :=
  (0 <=? x) && (0 <=? y) && (0 <? w) && (0 <? h)
  && (x + w <=? screen_width I scene) && (y + h <=? screen_height I scene).

(** Modelled from the spec: the translation of a region-local result of
    the native region search to absolute screen coordinates. *)
Definition translate (dx dy : Z) (r : bot.MatchResultJs.t)
  : bot.MatchResultJs.t :=
  {| bot.MatchResultJs.x := bot.MatchResultJs.x r + dx;
     bot.MatchResultJs.y := bot.MatchResultJs.y r + dy;
     bot.MatchResultJs.width := bot.MatchResultJs.width r;
     bot.MatchResultJs.height := bot.MatchResultJs.height r;
     bot.MatchResultJs.confidence := bot.MatchResultJs.confidence r;
     bot.MatchResultJs.scale := bot.MatchResultJs.scale r |}.

(** Modelled from the spec: the pipeline shared by the four native
    searches (sections 2 and 4.6): normalize, decode the template,
    capture, match over the scale space, aggregate. *)
Definition search (scene : Scene I) (region : option (Z * Z * Z * Z))
    (buffer : Buffer) (config : option bot.MatchConfigJs.t)
  : Completion (list bot.MatchResultJs.t) :=
  and_then (normalize config) (fun cfg =>
  and_then (match decode I buffer with
            | Some t => Return t
            | None => Throw DecodeError
            end) (fun template =>
  and_then (capture I scene region) (fun haystack =>
    Return (aggregate cfg
              (flat_map (matcher cfg haystack)
                 (scale_space cfg template haystack)))))).

(** Modelled from the spec: native [findAllOnScreen] (section 4.6), the
    full ranked list. *)
Definition findAllOnScreen (scene : Scene I) (buffer : Buffer)
    (config : option bot.MatchConfigJs.t)
  : Completion (list bot.MatchResultJs.t) :=
  search scene None buffer config.

(** Modelled from the spec: native [findOnScreen] (sections 4.5 and
    4.6), the head of the ranked list or [null] when it is empty. *)
Definition findOnScreen (scene : Scene I) (buffer : Buffer)
    (config : option bot.MatchConfigJs.t)
  : Completion (option bot.MatchResultJs.t) :=
  and_then (search scene None buffer config) (fun results =>
    Return (hd_error results)).

(** Modelled from the spec: native [findAllInRegion] (section 4.6):
    [BoundsError] for a bad region before any capture, else the pipeline
    on the captured region, translated to screen coordinates. *)
Definition findAllInRegion (scene : Scene I) (buffer : Buffer)
    (x y w h : Z) (config : option bot.MatchConfigJs.t)
  : Completion (list bot.MatchResultJs.t) :=
  if region_ok scene x y w h then
    and_then (search scene (Some (x, y, w, h)) buffer config) (fun results =>
      Return (map (translate x y) results))
  else Throw BoundsError.

(** Modelled from the spec: native [findInRegion] (section 4.6), the
    head of the region-bounded ranked list or [null]. *)
Definition findInRegion (scene : Scene I) (buffer : Buffer)
    (x y w h : Z) (config : option bot.MatchConfigJs.t)
  : Completion (option bot.MatchResultJs.t) :=
  and_then (findAllInRegion scene buffer x y w h config) (fun results =>
    Return (hd_error results)).

End Pipeline.

(** Modelled from the spec: the environment in which the four native
    searches are the engine above, the [k]-th of them looking at
    [scenes k]. *)
Definition environment (I : Imaging) (scenes : nat -> Scene I)
    (clk : nat -> Z) : Env :=
  {| clock := clk;
     native_findOnScreen := fun k => findOnScreen I (scenes k);
     native_findAllOnScreen := fun k => findAllOnScreen I (scenes k);
     native_findInRegion := fun k => findInRegion I (scenes k);
     native_findAllInRegion := fun k => findAllInRegion I (scenes k) |}.

End Engine.


(* ================================================================== *)
(** ** Sample data for concrete runs *)

Definition sample_template : ImageResource.t :=
  imageResourceFromBuffer [x89; x50; x4e; x47]%byte.

Definition sample_config : option MatchConfig.t :=
  Some {| MatchConfig.searchMultipleScales := Some false;
          MatchConfig.useGrayscale := None;
          MatchConfig.scaleSteps := None;
          MatchConfig.confidence := Some (9 # 10)%Q;
          MatchConfig.limit := None |}.

Definition sample_hit : bot.MatchResultJs.t :=
  {| bot.MatchResultJs.x := 100;
     bot.MatchResultJs.y := 40;
     bot.MatchResultJs.width := 31;
     bot.MatchResultJs.height := 20;
     bot.MatchResultJs.confidence := (95 # 100)%Q;
     bot.MatchResultJs.scale := 1%Q |}.

(** A clock whose first two readings are 0 and which then advances by
    55 ms per round (a 5 ms search and a 50 ms sleep). *)
Definition sample_clock (k : nat) : Z := 55 * Z.of_nat (pred k).

(** An environment whose [k]-th native [findOnScreen] ends as
    [script k]; the other searches find nothing. *)
Definition scripted (clk : nat -> Z)
    (script : nat -> Completion (option bot.MatchResultJs.t)) : Env :=
  {| clock := clk;
     native_findOnScreen := fun k _ _ => script k;
     native_findAllOnScreen := fun _ _ _ => Return [];
     native_findInRegion := fun _ _ _ _ _ _ _ => Return None;
     native_findAllInRegion := fun _ _ _ _ _ _ _ => Return [] |}.

(** The template is never on screen. *)
Definition never_present : Env :=
  scripted sample_clock (fun _ => Return None).

(** The template is always on screen. *)
Definition always_present : Env :=
  scripted sample_clock (fun _ => Return (Some sample_hit)).

(** The template shows up at the third search. *)
Definition appears_third : Env :=
  scripted sample_clock
    (fun k => if (k <? 2)%nat then Return None else Return (Some sample_hit)).

(** The template is gone at the third search. *)
Definition gone_third : Env :=
  scripted sample_clock
    (fun k => if (k <? 2)%nat then Return (Some sample_hit) else Return None).

(** The third search fails, after two that found nothing. *)
Definition fails_third_absent : Env :=
  scripted sample_clock
    (fun k => if (k <? 2)%nat then Return None else Throw DecodeError).

(** The third search fails, after two that found the template. *)
Definition fails_third_present : Env :=
  scripted sample_clock
    (fun k => if (k <? 2)%nat then Return (Some sample_hit)
              else Throw DecodeError).

(** A toy imaging back end: an image is its width and height, every
    comparison reports the same three local maxima, and two candidates
    overlap when they sit at the same position. *)
Definition toy_imaging : Engine.Imaging :=
  {| Engine.Image := (Z * Z)%type;
     Engine.Scene := (Z * Z)%type;
     Engine.screen_width := fst;
     Engine.screen_height := snd;
     Engine.capture := fun scene region =>
       match region with
       | None => Return scene
       | Some (_, _, w, h) => Return (w, h)
       end;
     Engine.decode := fun b =>
       match b with
       | [] => None
       | _ => Some (Z.of_nat (List.length b), Z.of_nat (List.length b))
       end;
     Engine.img_width := fst;
     Engine.img_height := snd;
     Engine.resize := fun _ w h => (w, h);
     Engine.luminance := fun i => i;
     Engine.local_maxima := fun _ _ =>
       [(3, 4, 1%Q); (10, 20, (85 # 100)%Q); (30, 40, (1 # 2)%Q)];
     Engine.overlaps := fun a b =>
       (bot.MatchResultJs.x a =? bot.MatchResultJs.x b)
       && (bot.MatchResultJs.y a =? bot.MatchResultJs.y b) |}.

Definition toy_env : Env :=
  Engine.environment toy_imaging (fun _ => (1920, 1080)) sample_clock.

Definition toy_config (c : Q) : option MatchConfig.t :=
  Some {| MatchConfig.searchMultipleScales := None;
          MatchConfig.useGrayscale := None;
          MatchConfig.scaleSteps := None;
          MatchConfig.confidence := Some c;
          MatchConfig.limit := None |}.

(* ================================================================== *)
(** ** Loading a template from a file *)

(** [imageResource(path)], over the file system's [readFile]; the
    promise it returns is rejected when the read fails. *)
Definition imageResource
    (readFile : string -> Completion Buffer) (path : string)
  : Completion ImageResource.t :=
  match readFile path with
  | Return buffer =>
      Return {| ImageResource.buffer := buffer;
                ImageResource.path := Some path |}
  | Throw e => Throw e
  end.

(** A file system that holds one PNG file. *)
Definition sample_fs (path : string) : Completion Buffer :=
  if String.eqb path "./button.png" then Return [x89; x50; x4e; x47]%byte
  else Throw IOError.

(* ================================================================== *)
(** ** The command-line tool: [packages/bot-cli/src/commands]

    [validate.ts], [invoke.ts] and [call.ts] call the exports of
    [@tego/botjs] by name, the functions above among them. *)

From Stdlib Require Import Ascii DecimalString Sorted.

#[local] Set Warnings "-register-all".

(** JavaScript values, as far as the tool inspects them. An object is
    the list of its own properties; the first binding of a key is the
    one that counts. *)
Inductive JsValue :=
| JsUndefined
| JsNull
| JsBoolean (b : bool)
| JsNumber (q : Q)
| JsString (s : string)
| JsBuffer (bytes : Buffer)
| JsArray (items : list JsValue)
| JsObject (props : list (string * JsValue))
| JsFunction (params : nat).

Module Cli.

Local Open Scope string_scope.

(** A line feed. *)
Definition newline : string := String "010"%char EmptyString.

(** Truthiness, as [if (v)] and [!v] see it. *)
Definition truthy (v : JsValue) : bool :=
  match v with
  | JsUndefined | JsNull => false
  | JsBoolean b => b
  | JsNumber q => negb (Qeq_bool q 0)
  | JsString s => negb (String.eqb s "")
  | JsBuffer _ | JsArray _ | JsObject _ | JsFunction _ => true
  end.

(** [typeof v]. *)
Definition typeof (v : JsValue) : string :=
  match v with
  | JsUndefined => "undefined"
  | JsNull => "object"
  | JsBoolean _ => "boolean"
  | JsNumber _ => "number"
  | JsString _ => "string"
  | JsBuffer _ | JsArray _ | JsObject _ => "object"
  | JsFunction _ => "function"
  end.

(** [Buffer.isBuffer(value)]. *)
Definition isBuffer (value : JsValue) : bool :=
  match value with
  | JsBuffer _ => true
  | _ => false
  end.

(** [Array.isArray(value)]. *)
Definition isArray (value : JsValue) : bool :=
  match value with
  | JsArray _ => true
  | _ => false
  end.

(** The first binding of [key] in a property list. *)
Fixpoint lookup (key : string) (props : list (string * JsValue))
  : option JsValue :=
  match props with
  | [] => None
  | (k, v) :: props' => if String.eqb k key then Some v else lookup key props'
  end.

(** The property list without [key], as the rest of a destructuring
    [{ key, ...rest }]. *)
Definition without (key : string) (props : list (string * JsValue))
  : list (string * JsValue) :=
  filter (fun kv => negb (String.eqb (fst kv) key)) props.

(** [record.key] for a value whose [typeof] is ["object"]; arrays and
    buffers have no property that is a [Buffer]. *)
Definition get (record : JsValue) (key : string) : JsValue :=
  match record with
  | JsObject props =>
      match lookup key props with
      | Some v => v
      | None => JsUndefined
      end
  | _ => JsUndefined
  end.

(** The own properties of an object value. *)
Definition own (record : JsValue) : list (string * JsValue) :=
  match record with
  | JsObject props => props
  | _ => []
  end.

(** A string option as a condition: [undefined] and [""] are falsy. *)
Definition given (s : option string) : bool :=
  match s with
  | Some s => negb (String.eqb s "")
  | None => false
  end.

(** A boolean option as a condition. *)
Definition set (b : option bool) : bool :=
  match b with
  | Some b => b
  | None => false
  end.

(** A natural number in a template literal. *)
Definition decimal (n : nat) : string :=
  NilEmpty.string_of_uint (Nat.to_uint n).

(** [s.includes(sub)]. *)
Fixpoint includes (s sub : string) : bool :=
  prefix sub s
  || match s with
     | EmptyString => false
     | String _ s' => includes s' sub
     end.

(** Insertion into a list of strings in ascending order. *)
Fixpoint insert_sorted (s : string) (l : list string) : list string :=
  match l with
  | [] => [s]
  | t :: l' => if String.leb s t then s :: t :: l' else t :: insert_sorted s l'
  end.

(** [names.sort()] with the default comparison. *)
Definition sort (l : list string) : list string :=
  fold_right insert_sorted [] l.

(** [s.lastIndexOf(c)] for a search string of one character: the
    position of its last occurrence, or -1. *)
Fixpoint lastIndexOf_from (c : ascii) (s : string) (pos last : Z) : Z :=
  match s with
  | EmptyString => last
  | String a s' =>
      lastIndexOf_from c s' (pos + 1) (if Ascii.eqb a c then pos else last)
  end.

Definition lastIndexOf (s : string) (c : ascii) : Z :=
  lastIndexOf_from c s 0 (-1).

(** [s.slice(start, end)]: negative positions count from the end. *)
Definition slice (s : string) (start end_ : Z) : string :=
  let len := Z.of_nat (String.length s) in
  let from :=
    if (start <? 0)%Z then Z.max (len + start) 0 else Z.min start len in
  let to :=
    if (end_ <? 0)%Z then Z.max (len + end_) 0 else Z.min end_ len in
  substring (Z.to_nat from) (Z.to_nat (Z.max (to - from) 0)) s.

(** [validate.ts]: [dirname(path)]. *)
Definition dirname (path : string) : string :=
  slice path 0 (Z.max 0 (lastIndexOf path "/"%char)).

(** [interface ApiSpec]. *)
Module ApiSpec.
Record param := mk_param {
  param_name : string;
  optional : option bool
}.
Record entry := mk_entry {
  name : string;
  kind : string;
  params : option (list param)
}.
Record t := mk {
  exports : list entry
}.
End ApiSpec.

(** [interface InvokeOptions]. *)
Module InvokeOptions.
Record t := mk {
  out : option string;
  jsonOutput : option bool;
  validate : option bool;
  dryRun : option bool
}.
End InvokeOptions.

(** [interface CallOptions]. *)
Module CallOptions.
Record t := mk {
  json : option string;
  file : option string;
  stdin : option bool;
  out : option string;
  jsonOutput : option bool;
  validate : option bool;
  dryRun : option bool
}.
End CallOptions.

(** What the tool runs on: the file system, standard input, [JSON], the
    exports of [@tego/botjs] and what calling them gives. The [k]-th
    [readFile] and the [k]-th call of an export answer by position.
    [JSON_parse_spec] is [JSON.parse] on the API description, whose
    result the code casts to [ApiSpec] unchecked. *)
Record Host := {
  apiPath : string;
  fs_readFile : nat -> string -> Completion string;
  fs_writeFile : string -> Buffer -> Completion unit;
  readStdin : Completion string;
  JSON_parse : string -> Completion JsValue;
  JSON_parse_spec : string -> Completion ApiSpec.t;
  JSON_stringify : JsValue -> string;
  JSON_stringify_indented : JsValue -> string;
  toLowerCase : string -> string;
  botjs : list (string * JsValue);
  call_export : nat -> string -> list JsValue -> Completion JsValue
}.

(** The state the tool changes: the module variable [cachedSpec] of
    [validate.ts], and what it has read, written, printed and called,
    most recent first. *)
Record State := {
  cachedSpec : option ApiSpec.t;
  reads : list string;
  writes : list (string * Buffer);
  stdout : list string;
  invocations : list (string * list JsValue)
}.

Definition initial : State :=
  {| cachedSpec := None; reads := []; writes := []; stdout := [];
     invocations := [] |}.

(** A command: from a state to a new state and a completion. *)
Definition Cmd (A : Type) : Type := State -> State * Completion A.

Definition ret {A} (a : A) : Cmd A := fun st => (st, Return a).

Definition throw {A} (message : string) : Cmd A :=
  fun st => (st, Throw (OtherError message)).

Definition bind {A B} (m : Cmd A) (k : A -> Cmd B) : Cmd B :=
  fun st =>
    match m st with
    | (st', Return a) => k a st'
    | (st', Throw e) => (st', Throw e)
    end.

(** A completion of the host, passed on as it is. *)
Definition lift {A} (c : Completion A) : Cmd A := fun st => (st, c).

Notation "x <~ m ;; k" := (bind m (fun x => k))
  (at level 61, m at next level, right associativity).

Section Commands.
Variable host : Host.

(** [fs.readFile(path, "utf8")]. *)
Definition readFile (path : string) : Cmd string :=
  fun st =>
    ({| cachedSpec := cachedSpec st;
        reads := path :: reads st;
        writes := writes st;
        stdout := stdout st;
        invocations := invocations st |},
     fs_readFile host (List.length (reads st)) path).

(** [fs.writeFile(path, bytes)]; a failed write leaves no file. *)
Definition writeFile (path : string) (bytes : Buffer) : Cmd unit :=
  fun st =>
    match fs_writeFile host path bytes with
    | Return tt =>
        ({| cachedSpec := cachedSpec st;
            reads := reads st;
            writes := (path, bytes) :: writes st;
            stdout := stdout st;
            invocations := invocations st |}, Return tt)
    | Throw e => (st, Throw e)
    end.

(** [process.stdout.write(chunk)]. *)
Definition stdout_write (chunk : string) : Cmd unit :=
  fun st =>
    ({| cachedSpec := cachedSpec st;
        reads := reads st;
        writes := writes st;
        stdout := chunk :: stdout st;
        invocations := invocations st |}, Return tt).

(** [cachedSpec = spec]. *)
Definition set_cachedSpec (spec : ApiSpec.t) : Cmd unit :=
  fun st =>
    ({| cachedSpec := Some spec;
        reads := reads st;
        writes := writes st;
        stdout := stdout st;
        invocations := invocations st |}, Return tt).

(** [fn(...args)], awaited when it is a promise. *)
Definition apply_export (exportName : string) (args : list JsValue)
  : Cmd JsValue :=
  fun st =>
    ({| cachedSpec := cachedSpec st;
        reads := reads st;
        writes := writes st;
        stdout := stdout st;
        invocations := (exportName, args) :: invocations st |},
     call_export host (List.length (invocations st)) exportName args).

(** [validate.ts]: [loadApiSpec()]. *)
Definition loadApiSpec : Cmd ApiSpec.t :=
  fun st =>
    match cachedSpec st with
    | Some spec => (st, Return spec)
    | None =>
        (raw <~ readFile (apiPath host) ;;
         spec <~ lift (JSON_parse_spec host raw) ;;
         _ <~ set_cachedSpec spec ;;
         ret spec) st
    end.

(** The number of parameters of [entry] that are not optional. *)
Definition requiredCount (entry : ApiSpec.entry) : nat :=
  List.length
    (filter (fun param => negb (set (ApiSpec.optional param)))
       (match ApiSpec.params entry with
        | Some params => params
        | None => []
        end)).

(** [validate.ts]: [validateArgs(exportName, args, validate)]. *)
Definition validateArgs (exportName : string) (args : list JsValue)
    (validate : bool) : Cmd unit :=
  if negb validate then ret tt
  else
    spec <~ loadApiSpec ;;
    match find (fun item => String.eqb (ApiSpec.name item) exportName)
            (ApiSpec.exports spec) with
    | None => ret tt
    | Some entry =>
        if negb (String.eqb (ApiSpec.kind entry) "function") then ret tt
        else if (List.length args <? requiredCount entry)%nat then
          throw ("Expected at least " ++ decimal (requiredCount entry)
                 ++ " argument(s) for '" ++ exportName ++ "', received "
                 ++ decimal (List.length args) ++ ".")
        else ret tt
    end.

(** [invoke.ts]: [extractBufferField(value)]; the result is the buffer
    and the remaining properties. *)
Definition extractBufferField (value : JsValue)
  : option (Buffer * list (string * JsValue)) :=
  if negb (truthy value) || negb (String.eqb (typeof value) "object")
  then None
  else
    match get value "image" with
    | JsBuffer image => Some (image, without "image" (own value))
    | _ =>
        match get value "buffer" with
        | JsBuffer buffer => Some (buffer, without "buffer" (own value))
        | _ => None
        end
    end.

(** [invoke.ts]: [writeResult(result, options)]. *)
Definition writeResult (result : JsValue) (options : InvokeOptions.t)
  : Cmd unit :=
  match result with
  | JsBuffer bytes =>
      match InvokeOptions.out options with
      | Some out =>
          if String.eqb out "" then
            throw "Buffer result requires --out <path> to write file."
          else
            _ <~ writeFile out bytes ;;
            if set (InvokeOptions.jsonOutput options) then
              stdout_write
                (JSON_stringify host
                   (JsObject
                      [("out", JsString out);
                       ("bytes",
                        JsNumber (inject_Z (Z.of_nat (List.length bytes))))]))
            else
              stdout_write
                ("Wrote " ++ decimal (List.length bytes) ++ " bytes to "
                 ++ out ++ newline)
      | None => throw "Buffer result requires --out <path> to write file."
      end
  | _ =>
      let extracted := extractBufferField result in
      if given (InvokeOptions.out options) then
        match InvokeOptions.out options, extracted with
        | Some out, Some (buffer, remaining) =>
            _ <~ writeFile out buffer ;;
            if set (InvokeOptions.jsonOutput options) then
              stdout_write
                (JSON_stringify host
                   (JsObject
                      ([("out", JsString out);
                        ("bytes",
                         JsNumber
                           (inject_Z (Z.of_nat (List.length buffer))))]
                       ++ match remaining with
                          | [] => []
                          | _ => [("result", JsObject remaining)]
                          end)%list)
                 ++ newline)
            else
              stdout_write
                ("Wrote " ++ decimal (List.length buffer) ++ " bytes to "
                 ++ out ++ newline)
        | _, _ =>
            throw "--out was provided but result did not contain a Buffer."
        end
      else if set (InvokeOptions.jsonOutput options) then
        stdout_write (JSON_stringify host result ++ newline)
      else if String.eqb (typeof result) "undefined" then
        stdout_write ("OK" ++ newline)
      else
        match result with
        | JsString s => stdout_write (s ++ newline)
        | _ =>
            stdout_write
              (JSON_stringify_indented host result ++ newline)
        end
  end.

(** The names of [@tego/botjs] that contain [exportName], whatever the
    case, in sorted order. *)
Definition closest (exportName : string) : list string :=
  filter
    (fun name =>
       includes (toLowerCase host name) (toLowerCase host exportName))
    (sort (map fst (botjs host))).

(** [invoke.ts]: [invokeExport(exportName, args, options)]. *)
Definition invokeExport (exportName : string) (args : list JsValue)
    (options : InvokeOptions.t) : Cmd unit :=
  match lookup exportName (botjs host) with
  | Some (JsFunction minArgs) =>
      let shouldValidate :=
        match InvokeOptions.validate options with
        | Some false => false
        | _ => true
        end in
      _ <~ validateArgs exportName args shouldValidate ;;
      if shouldValidate
         && match args with
            | [arg] =>
                truthy arg && String.eqb (typeof arg) "object"
                && negb (isArray arg)
            | _ => false
            end
         && (1 <? minArgs)%nat
      then
        throw ("Argument for '" ++ exportName
               ++ "' should be an array when calling functions with "
               ++ decimal minArgs ++ " parameters.")
      else if set (InvokeOptions.dryRun options) then
        if set (InvokeOptions.jsonOutput options) then
          stdout_write
            (JSON_stringify host
               (JsObject
                  [("ok", JsBoolean true);
                   ("exportName", JsString exportName);
                   ("args", JsArray args);
                   ("dryRun", JsBoolean true)])
             ++ newline)
        else
          stdout_write
            ("OK (dry-run): " ++ exportName ++ newline)
      else
        result <~ apply_export exportName args ;;
        writeResult result options
  | _ =>
      let matches := closest exportName in
      let suffix :=
        match matches with
        | [] => ""
        | _ => newline ++ "Closest matches: " ++ String.concat ", " matches
        end in
      throw ("Export '" ++ exportName ++ "' is not a function." ++ suffix)
  end.

(** [call.ts]: [loadArgs(options)]. *)
Definition loadArgs (options : CallOptions.t) : Cmd JsValue :=
  if given (CallOptions.json options) then
    match CallOptions.json options with
    | Some json => lift (JSON_parse host json)
    | None => ret (JsArray [])
    end
  else if given (CallOptions.file options) then
    match CallOptions.file options with
    | Some file =>
        contents <~ readFile file ;;
        lift (JSON_parse host contents)
    | None => ret (JsArray [])
    end
  else if set (CallOptions.stdin options) then
    contents <~ lift (readStdin host) ;;
    lift (JSON_parse host contents)
  else ret (JsArray []).

(** The options [callCommand] hands to [invokeExport]; with [dryRun]
    the [out] option is dropped. *)
Definition passed_options (options : CallOptions.t) : InvokeOptions.t :=
  {| InvokeOptions.out :=
       if set (CallOptions.dryRun options) then None
       else CallOptions.out options;
     InvokeOptions.jsonOutput := CallOptions.jsonOutput options;
     InvokeOptions.validate := CallOptions.validate options;
     InvokeOptions.dryRun := CallOptions.dryRun options |}.

(** [call.ts]: [callCommand(exportName, options)]. *)
Definition callCommand (exportName : string) (options : CallOptions.t)
  : Cmd unit :=
  args <~ loadArgs options ;;
  let normalizedArgs :=
    match args with
    | JsArray items => items
    | _ => [args]
    end in
  invokeExport exportName normalizedArgs (passed_options options).

End Commands.

End Cli.

(* ================================================================== *)
(** ** Sample data for runs of the command-line tool *)

Definition sample_spec : Cli.ApiSpec.t :=
  {| Cli.ApiSpec.exports :=
       [ {| Cli.ApiSpec.name := "moveMouse";
            Cli.ApiSpec.kind := "function";
            Cli.ApiSpec.params :=
              Some [ {| Cli.ApiSpec.param_name := "x";
                        Cli.ApiSpec.optional := None |};
                     {| Cli.ApiSpec.param_name := "y";
                        Cli.ApiSpec.optional := Some false |} ] |};
         {| Cli.ApiSpec.name := "findOnScreen";
            Cli.ApiSpec.kind := "function";
            Cli.ApiSpec.params :=
              Some [ {| Cli.ApiSpec.param_name := "template";
                        Cli.ApiSpec.optional := Some false |};
                     {| Cli.ApiSpec.param_name := "config";
                        Cli.ApiSpec.optional := Some true |} ] |};
         {| Cli.ApiSpec.name := "captureScreen";
            Cli.ApiSpec.kind := "function";
            Cli.ApiSpec.params := None |} ] |}.

Definition sample_capture : JsValue :=
  JsObject [ ("width", JsNumber 2%Q);
             ("image", JsBuffer [x89; x50]%byte);
             ("buffer", JsBuffer [x00]%byte) ]%string.

(** A host with one API description file, three exports and a JSON
    parser that knows three texts. *)
Definition sample_host : Cli.Host :=
  {| Cli.apiPath := "/repo/packages/botjs/generated/api.json";
     Cli.fs_readFile := fun _ path =>
       if String.eqb path "/repo/packages/botjs/generated/api.json"
       then Return "{}"%string else Throw IOError;
     Cli.fs_writeFile := fun _ _ => Return tt;
     Cli.readStdin := Return "[]"%string;
     Cli.JSON_parse := fun text =>
       if String.eqb text "[1,2]"
       then Return (JsArray [JsNumber 1%Q; JsNumber 2%Q])
       else if String.eqb text "{}" then Return (JsObject [])
       else if String.eqb text "[{}]" then Return (JsArray [JsObject []])
       else if String.eqb text "[]" then Return (JsArray [])
       else Throw (OtherError "SyntaxError");
     Cli.JSON_parse_spec := fun _ => Return sample_spec;
     Cli.JSON_stringify := fun _ => "<json>"%string;
     Cli.JSON_stringify_indented := fun _ => "<json>"%string;
     Cli.toLowerCase := fun s => s;
     Cli.botjs :=
       [ ("captureScreen", JsFunction 0);
         ("findOnScreen", JsFunction 2);
         ("moveMouse", JsFunction 2) ]%string;
     Cli.call_export := fun _ name _ =>
       if String.eqb name "captureScreen" then Return sample_capture
       else Return JsUndefined |}.

(* ================================================================== *)
(** * Properties *)

(** ** Image loading and utility functions *)

(** C7. [imageResourceFromBuffer] is a total function: for every buffer
    it yields an image resource that holds exactly that buffer and
    records no path. *)
Theorem imageResourceFromBuffer_keeps_buffer (b : Buffer) :
  ImageResource.buffer (imageResourceFromBuffer b) = b
  /\ ImageResource.path (imageResourceFromBuffer b) = None.
Proof. split; reflexivity. Qed.

(** C10. The bounds of a match are its corner and the corner plus the
    extent, so the extent and the corner can be read back from them. *)
Theorem getMatchBounds_roundtrip (m : MatchResult.t) :
  getMatchBounds m
  = {| Bounds.left := MatchResult.x m;
       Bounds.top := MatchResult.y m;
       Bounds.right := MatchResult.x m + MatchResult.width m;
       Bounds.bottom := MatchResult.y m + MatchResult.height m |}
  /\ Bounds.right (getMatchBounds m) - Bounds.left (getMatchBounds m)
     = MatchResult.width m
  /\ Bounds.bottom (getMatchBounds m) - Bounds.top (getMatchBounds m)
     = MatchResult.height m
  /\ Bounds.left (getMatchBounds m) = MatchResult.x m
  /\ Bounds.top (getMatchBounds m) = MatchResult.y m.
Proof.
  destruct m as [mx my mw mh mc ms]; cbn.
  repeat split; lia.
Qed.

(** [Math.round q] is the integer [n] with [n - 1/2 <= q < n + 1/2]. *)
Lemma Math_round_bounds (q : Q) :
  (inject_Z (Math_round q) - (1 # 2) <= q)%Q
  /\ (q < inject_Z (Math_round q) + (1 # 2))%Q.
Proof.
  unfold Math_round.
  pose proof (Qfloor_le (q + (1 # 2))) as Hle.
  pose proof (Qlt_floor (q + (1 # 2))) as Hlt.
  rewrite inject_Z_plus in Hlt.
  change (inject_Z 1) with 1%Q in Hlt.
  split; lra.
Qed.

Lemma Math_round_unique (q : Q) (n : Z) :
  (inject_Z n - (1 # 2) <= q)%Q -> (q < inject_Z n + (1 # 2))%Q ->
  Math_round q = n.
Proof.
  intros Hlo Hhi.
  destruct (Math_round_bounds q) as [Rlo Rhi].
  assert (H1 : (inject_Z (Math_round q) < inject_Z (n + 1))%Q).
  { rewrite inject_Z_plus. change (inject_Z 1) with 1%Q. lra. }
  assert (H2 : (inject_Z n < inject_Z (Math_round q + 1))%Q).
  { rewrite inject_Z_plus. change (inject_Z 1) with 1%Q. lra. }
  rewrite <- Zlt_Qlt in H1, H2. lia.
Qed.

Lemma Math_round_nearest (q : Q) : nearest_integer q (Math_round q).
Proof.
  intro z'.
  destruct (Math_round_bounds q) as [Rlo Rhi].
  assert (Hr : (Qabs (q - inject_Z (Math_round q)) <= 1 # 2)%Q).
  { apply Qabs_Qle_condition. split; lra. }
  destruct (Z.eq_dec z' (Math_round q)) as [-> | Hne].
  { apply Qle_refl. }
  apply Qle_trans with (1 # 2)%Q; [exact Hr |].
  destruct (Z_lt_le_dec z' (Math_round q)) as [Hlt | Hge].
  - assert (Hz : (inject_Z (z' + 1) <= inject_Z (Math_round q))%Q)
      by (rewrite <- Zle_Qle; lia).
    rewrite inject_Z_plus in Hz. change (inject_Z 1) with 1%Q in Hz.
    apply Qle_trans with (q - inject_Z z')%Q; [lra | apply Qle_Qabs].
  - assert (Hz : (inject_Z (Math_round q + 1) <= inject_Z z')%Q)
      by (rewrite <- Zle_Qle; lia).
    rewrite inject_Z_plus in Hz. change (inject_Z 1) with 1%Q in Hz.
    rewrite Qabs_Qminus.
    apply Qle_trans with (inject_Z z' - q)%Q; [lra | apply Qle_Qabs].
Qed.

Lemma plus_half_linear (a b : Z) :
  (plus_half a b == inject_Z a + (1 # 2) * inject_Z b)%Q.
Proof. unfold plus_half. field. Qed.

Lemma plus_half_even (a k : Z) :
  Math_round (plus_half a (2 * k)) = a + k.
Proof.
  apply Math_round_unique; rewrite plus_half_linear;
    rewrite !inject_Z_plus, inject_Z_mult;
    change (inject_Z 2) with 2%Q; lra.
Qed.

Lemma plus_half_floor (a b : Z) :
  Math_round (plus_half a b) = (2 * a + b + 1) / 2.
Proof.
  apply Math_round_unique; rewrite plus_half_linear.
  - pose proof (Z.div_mod (2 * a + b + 1) 2 ltac:(lia)) as Hd.
    pose proof (Z.mod_pos_bound (2 * a + b + 1) 2 ltac:(lia)) as Hm.
    assert (H : (2 * inject_Z ((2 * a + b + 1) / 2)
                 <= inject_Z (2 * a + b + 1))%Q).
    { change 2%Q with (inject_Z 2). rewrite <- inject_Z_mult.
      rewrite <- Zle_Qle. lia. }
    rewrite !inject_Z_plus, inject_Z_mult in H.
    change (inject_Z 2) with 2%Q in H. change (inject_Z 1) with 1%Q in H.
    lra.
  - pose proof (Z.div_mod (2 * a + b + 1) 2 ltac:(lia)) as Hd.
    pose proof (Z.mod_pos_bound (2 * a + b + 1) 2 ltac:(lia)) as Hm.
    assert (H : (inject_Z (2 * a + b + 1)
                 < 2 * inject_Z ((2 * a + b + 1) / 2) + 2)%Q).
    { change 2%Q with (inject_Z 2). rewrite <- inject_Z_mult.
      rewrite <- inject_Z_plus. rewrite <- Zlt_Qlt. lia. }
    rewrite !inject_Z_plus, inject_Z_mult in H.
    change (inject_Z 2) with 2%Q in H. change (inject_Z 1) with 1%Q in H.
    lra.
Qed.

(** C9. The centre of a match is [x + width / 2] and [y + height / 2],
    each rounded to a nearest integer (a tie goes up, which is the
    integer quotient of [2 * x + width + 1] by 2); with an even width
    and height the centre is exactly [(x + width / 2, y + height / 2)]. *)
Theorem getMatchCenter_rounds_to_nearest (m : MatchResult.t) :
  nearest_integer (plus_half (MatchResult.x m) (MatchResult.width m))
    (Point.x (getMatchCenter m))
  /\ nearest_integer (plus_half (MatchResult.y m) (MatchResult.height m))
       (Point.y (getMatchCenter m))
  /\ getMatchCenter m
     = {| Point.x := (2 * MatchResult.x m + MatchResult.width m + 1) / 2;
          Point.y := (2 * MatchResult.y m + MatchResult.height m + 1) / 2 |}
  /\ (forall a b : Z,
        MatchResult.width m = 2 * a -> MatchResult.height m = 2 * b ->
        getMatchCenter m
        = {| Point.x := MatchResult.x m + a;
             Point.y := MatchResult.y m + b |}).
Proof.
  unfold getMatchCenter; cbn [Point.x Point.y].
  split; [apply Math_round_nearest |].
  split; [apply Math_round_nearest |].
  split.
  - now rewrite !plus_half_floor.
  - intros a b Hw Hh. rewrite Hw, Hh. now rewrite !plus_half_even.
Qed.

Lemma getMatchCenter_rounds_to_nearest_witness :
  getMatchCenter (fromMatchResultJs sample_hit)
  = {| Point.x := 116; Point.y := 50 |}
  /\ getMatchCenter
       {| MatchResult.x := 0; MatchResult.y := 0;
          MatchResult.width := 100; MatchResult.height := 100;
          MatchResult.confidence := 1%Q; MatchResult.scale := 1%Q |}
     = {| Point.x := 0 + 50; Point.y := 0 + 50 |}.
Proof.
  split.
  - exact (proj1 (proj2 (proj2
      (getMatchCenter_rounds_to_nearest (fromMatchResultJs sample_hit))))).
  - apply (proj2 (proj2 (proj2 (getMatchCenter_rounds_to_nearest
      {| MatchResult.x := 0; MatchResult.y := 0;
         MatchResult.width := 100; MatchResult.height := 100;
         MatchResult.confidence := 1%Q; MatchResult.scale := 1%Q |}))));
      reflexivity.
Defined.

(* ================================================================== *)
(** ** The wait loops *)

Section WaitLoops.
Variable env : Env.
Variables (template : ImageResource.t) (config : option MatchConfig.t).
Variables (startTime timeout interval : Z).

Let buf := ImageResource.buffer template.
Let cfg := toMatchConfigJs config.

(** Runs one round of either loop whose deadline check [Hd] passes and
    whose search ends as [Hn] says. *)
Ltac run_round Hd Hn :=
  apply Z.ltb_lt in Hd;
  cbn [waitFor_while waitForGone_while]; unfold bind at 1; cbn [Date_now];
  rewrite Hd;
  unfold bind at 1, findOnScreen, bind at 1, bot_findOnScreen;
  unfold after_rounds, after_search;
  cbn [rounds app trace clock_reads searches Nat.add];
  fold buf cfg; rewrite Hn.

Lemma after_rounds_succ (n : nat) (w : World) :
  after_rounds env template config interval n
    (after_rounds env template config interval 1 w)
  = after_rounds env template config interval (S n) w.
Proof.
  unfold after_rounds; cbn [clock_reads searches trace rounds Nat.add app].
  f_equal; [lia | lia | now rewrite <- app_assoc].
Qed.

(** One round of [waitFor] that finds nothing goes on to sleep and to
    the next evaluation of the loop condition. *)
Lemma waitFor_while_round (fuel : nat) (w : World) :
  clock env (clock_reads w) - startTime < timeout ->
  native_findOnScreen env (searches w) buf cfg = Return None ->
  waitFor_while env (S fuel) startTime timeout interval template config w
  = waitFor_while env fuel startTime timeout interval template config
      (after_rounds env template config interval 1 w).
Proof.
  intros Hd Hn. now run_round Hd Hn.
Qed.

(** One round of [waitForGone] that still finds the template. *)
Lemma waitForGone_while_round (fuel : nat) (w : World)
    (r : bot.MatchResultJs.t) :
  clock env (clock_reads w) - startTime < timeout ->
  native_findOnScreen env (searches w) buf cfg = Return (Some r) ->
  waitForGone_while env (S fuel) startTime timeout interval template config w
  = waitForGone_while env fuel startTime timeout interval template config
      (after_rounds env template config interval 1 w).
Proof.
  intros Hd Hn. now run_round Hd Hn.
Qed.

(** [n] rounds in a row that find nothing. *)
Lemma waitFor_while_rounds (n fuel : nat) (w : World) :
  (forall i, (i < n)%nat ->
     clock env (i + clock_reads w) - startTime < timeout) ->
  (forall i, (i < n)%nat ->
     native_findOnScreen env (i + searches w) buf cfg = Return None) ->
  waitFor_while env (n + fuel) startTime timeout interval template config w
  = waitFor_while env fuel startTime timeout interval template config
      (after_rounds env template config interval n w).
Proof.
  revert w; induction n as [| n IH]; intros w Hd Hn.
  - destruct w; reflexivity.
  - cbn [Nat.add].
    rewrite waitFor_while_round
      by (try apply (Hd 0%nat); try apply (Hn 0%nat); lia).
    rewrite IH.
    + now rewrite after_rounds_succ.
    + intros i Hi. cbn [after_rounds clock_reads Nat.add].
      rewrite <- plus_n_Sm. apply (Hd (S i)). lia.
    + intros i Hi. cbn [after_rounds searches Nat.add].
      rewrite <- plus_n_Sm. apply (Hn (S i)). lia.
Qed.

(** [n] rounds in a row that still find the template. *)
Lemma waitForGone_while_rounds (n fuel : nat) (w : World) :
  (forall i, (i < n)%nat ->
     clock env (i + clock_reads w) - startTime < timeout) ->
  (forall i, (i < n)%nat ->
     exists r,
       native_findOnScreen env (i + searches w) buf cfg = Return (Some r)) ->
  waitForGone_while env (n + fuel) startTime timeout interval template config w
  = waitForGone_while env fuel startTime timeout interval template config
      (after_rounds env template config interval n w).
Proof.
  revert w; induction n as [| n IH]; intros w Hd Hn.
  - destruct w; reflexivity.
  - cbn [Nat.add].
    destruct (Hn 0%nat ltac:(lia)) as [r Hr].
    rewrite (waitForGone_while_round _ _ r)
      by (try apply (Hd 0%nat); try exact Hr; lia).
    rewrite IH.
    + now rewrite after_rounds_succ.
    + intros i Hi. cbn [after_rounds clock_reads Nat.add].
      rewrite <- plus_n_Sm. apply (Hd (S i)). lia.
    + intros i Hi. cbn [after_rounds searches Nat.add].
      rewrite <- plus_n_Sm. apply (Hn (S i)). lia.
Qed.

(** The first evaluation of the loop condition that finds the deadline
    reached. *)
Lemma first_expiry (n reads : nat) :
  timeout <= clock env (n + reads) - startTime ->
  exists m, (m <= n)%nat
    /\ timeout <= clock env (m + reads) - startTime
    /\ forall i, (i < m)%nat -> clock env (i + reads) - startTime < timeout.
Proof.
  revert reads; induction n as [| n IH]; intros reads Hn.
  - exists 0%nat. repeat split; [lia | exact Hn | intros i Hi; lia].
  - destruct (Z_lt_le_dec (clock env reads - startTime) timeout) as [Hlt | Hge].
    + destruct (IH (S reads)) as (m & Hm & Hexp & Hbefore).
      { now rewrite <- plus_n_Sm. }
      exists (S m). repeat split.
      * lia.
      * now replace (S m + reads)%nat with (m + S reads)%nat by lia.
      * intros [| i] Hi; [exact Hlt |].
        replace (S i + reads)%nat with (i + S reads)%nat by lia.
        apply Hbefore. lia.
    + exists 0%nat. repeat split; [lia | exact Hge | intros i Hi; lia].
Qed.

(** The loop condition fails: [waitFor] returns [null] at once. *)
Lemma waitFor_while_expired (fuel : nat) (w : World) :
  timeout <= clock env (clock_reads w) - startTime ->
  waitFor_while env (S fuel) startTime timeout interval template config w
  = Some ({| clock_reads := S (clock_reads w);
             searches := searches w;
             trace := EvNow (clock env (clock_reads w)) :: trace w |},
          Return None).
Proof.
  intros Hd. apply Z.ltb_ge in Hd.
  cbn [waitFor_while]. unfold bind at 1. cbn [Date_now].
  now rewrite Hd.
Qed.

Lemma waitForGone_while_expired (fuel : nat) (w : World) :
  timeout <= clock env (clock_reads w) - startTime ->
  waitForGone_while env (S fuel) startTime timeout interval template config w
  = Some ({| clock_reads := S (clock_reads w);
             searches := searches w;
             trace := EvNow (clock env (clock_reads w)) :: trace w |},
          Return false).
Proof.
  intros Hd. apply Z.ltb_ge in Hd.
  cbn [waitForGone_while]. unfold bind at 1. cbn [Date_now].
  now rewrite Hd.
Qed.

Lemma waitFor_while_found (fuel : nat) (w : World)
    (r : bot.MatchResultJs.t) :
  clock env (clock_reads w) - startTime < timeout ->
  native_findOnScreen env (searches w) buf cfg = Return (Some r) ->
  waitFor_while env (S fuel) startTime timeout interval template config w
  = Some (after_search env template config w (Return (Some r)),
          Return (Some (fromMatchResultJs r))).
Proof.
  intros Hd Hn. now run_round Hd Hn.
Qed.

Lemma waitFor_while_throws (fuel : nat) (w : World) (e : JsError) :
  clock env (clock_reads w) - startTime < timeout ->
  native_findOnScreen env (searches w) buf cfg = Throw e ->
  waitFor_while env (S fuel) startTime timeout interval template config w
  = Some (after_search env template config w (Throw e), Throw e).
Proof.
  intros Hd Hn. now run_round Hd Hn.
Qed.

Lemma waitForGone_while_gone (fuel : nat) (w : World) :
  clock env (clock_reads w) - startTime < timeout ->
  native_findOnScreen env (searches w) buf cfg = Return None ->
  waitForGone_while env (S fuel) startTime timeout interval template config w
  = Some (after_search env template config w (Return None), Return true).
Proof.
  intros Hd Hn. now run_round Hd Hn.
Qed.

Lemma waitForGone_while_throws (fuel : nat) (w : World) (e : JsError) :
  clock env (clock_reads w) - startTime < timeout ->
  native_findOnScreen env (searches w) buf cfg = Throw e ->
  waitForGone_while env (S fuel) startTime timeout interval template config w
  = Some (after_search env template config w (Throw e), Throw e).
Proof.
  intros Hd Hn. now run_round Hd Hn.
Qed.

(** When nothing is ever found, [waitFor] returns [null] at the first
    expiry it observes. *)
Lemma waitFor_while_times_out (n fuel : nat) (w : World) :
  (forall i, (i < n)%nat ->
     native_findOnScreen env (i + searches w) buf cfg = Return None) ->
  timeout <= clock env (n + clock_reads w) - startTime ->
  (n < fuel)%nat ->
  exists m, (m <= n)%nat
    /\ timeout <= clock env (m + clock_reads w) - startTime
    /\ waitFor_while env fuel startTime timeout interval template config w
       = Some ({| clock_reads := S (m + clock_reads w);
                  searches := m + searches w;
                  trace := EvNow (clock env (m + clock_reads w))
                           :: rounds env template config interval
                                (clock_reads w) (searches w) m
                           ++ trace w |},
               Return None).
Proof.
  intros Hnone Hexp Hfuel.
  destruct (first_expiry n (clock_reads w) Hexp) as (m & Hm & Hat & Hbefore).
  exists m. split; [exact Hm |]. split; [exact Hat |].
  replace fuel with (m + S (fuel - S m))%nat by lia.
  rewrite waitFor_while_rounds
    by (intros i Hi; try apply Hbefore; try apply Hnone; lia).
  now rewrite waitFor_while_expired.
Qed.

Lemma waitForGone_while_times_out (n fuel : nat) (w : World) :
  (forall i, (i < n)%nat -> exists r,
     native_findOnScreen env (i + searches w) buf cfg = Return (Some r)) ->
  timeout <= clock env (n + clock_reads w) - startTime ->
  (n < fuel)%nat ->
  exists m, (m <= n)%nat
    /\ timeout <= clock env (m + clock_reads w) - startTime
    /\ waitForGone_while env fuel startTime timeout interval template config w
       = Some ({| clock_reads := S (m + clock_reads w);
                  searches := m + searches w;
                  trace := EvNow (clock env (m + clock_reads w))
                           :: rounds env template config interval
                                (clock_reads w) (searches w) m
                           ++ trace w |},
               Return false).
Proof.
  intros Hall Hexp Hfuel.
  destruct (first_expiry n (clock_reads w) Hexp) as (m & Hm & Hat & Hbefore).
  exists m. split; [exact Hm |]. split; [exact Hat |].
  replace fuel with (m + S (fuel - S m))%nat by lia.
  rewrite waitForGone_while_rounds
    by (intros i Hi; try apply Hbefore; try apply Hall; lia).
  now rewrite waitForGone_while_expired.
Qed.

(** In any environment, [waitFor] returns [null] only right after a
    clock reading that shows the timeout elapsed. *)
Lemma waitFor_while_null_is_late (fuel : nat) (w w' : World) :
  waitFor_while env fuel startTime timeout interval template config w
  = Some (w', Return None) ->
  exists t, hd_error (trace w') = Some (EvNow t) /\ timeout <= t - startTime.
Proof.
  revert w; induction fuel as [| fuel IH]; intros w; [discriminate |].
  cbn [waitFor_while]. unfold bind at 1. cbn [Date_now].
  destruct (Z.ltb_spec (clock env (clock_reads w) - startTime) timeout)
    as [Hlt | Hge].
  - unfold bind at 1, findOnScreen, bind at 1, bot_findOnScreen.
    cbn [searches].
    destruct (native_findOnScreen env (searches w)
                (ImageResource.buffer template) (toMatchConfigJs config))
      as [[r |] | e]; cbn; try discriminate.
    apply IH.
  - intros H; inversion H; subst w'; clear H.
    exists (clock env (clock_reads w)). split; [reflexivity | exact Hge].
Qed.

(** Likewise [waitForGone] returns [false] only right after such a
    reading. *)
Lemma waitForGone_while_false_is_late (fuel : nat) (w w' : World) :
  waitForGone_while env fuel startTime timeout interval template config w
  = Some (w', Return false) ->
  exists t, hd_error (trace w') = Some (EvNow t) /\ timeout <= t - startTime.
Proof.
  revert w; induction fuel as [| fuel IH]; intros w; [discriminate |].
  cbn [waitForGone_while]. unfold bind at 1. cbn [Date_now].
  destruct (Z.ltb_spec (clock env (clock_reads w) - startTime) timeout)
    as [Hlt | Hge].
  - unfold bind at 1, findOnScreen, bind at 1, bot_findOnScreen.
    cbn [searches].
    destruct (native_findOnScreen env (searches w)
                (ImageResource.buffer template) (toMatchConfigJs config))
      as [[r |] | e]; cbn; try discriminate.
    apply IH.
  - intros H; inversion H; subst w'; clear H.
    exists (clock env (clock_reads w)). split; [reflexivity | exact Hge].
Qed.

End WaitLoops.

(* ================================================================== *)
(** ** [waitFor] and [waitForGone] *)

Section Waiting.
Variable env : Env.
Variables (template : ImageResource.t) (config : option MatchConfig.t).
Variables (timeout interval : option Z).
Variable w : World.

Let buf := ImageResource.buffer template.
Let cfg := toMatchConfigJs config.
Let startTime := clock env (clock_reads w).
Let started : World :=
  {| clock_reads := S (clock_reads w);
     searches := searches w;
     trace := EvNow startTime :: trace w |}.

Lemma waitFor_start (fuel : nat) :
  waitFor env fuel template timeout interval config w
  = waitFor_while env fuel startTime (or_default 10000 timeout)
      (or_default 500 interval) template config started.
Proof. reflexivity. Qed.

Lemma waitForGone_start (fuel : nat) :
  waitForGone env fuel template timeout interval config w
  = waitForGone_while env fuel startTime (or_default 10000 timeout)
      (or_default 500 interval) template config started.
Proof. reflexivity. Qed.

(** C1. If none of the searches of the loop finds the template and
    the clock shows the timeout elapsed at some evaluation of the loop
    condition, [waitFor] returns [null]; the last thing it did was to
    read a clock value at least [timeout] past the start, and before
    that it ran [m] rounds of one search and one sleep of [interval]
    each. In any environment, [null] is returned only right after a
    clock reading at least [timeout] past the start. *)
Theorem waitFor_never_found_times_out (n fuel : nat) :
  ((forall i, (i < n)%nat ->
      native_findOnScreen env (i + searches w) buf cfg = Return None) ->
   or_default 10000 timeout <= clock env (S n + clock_reads w) - startTime ->
   (n < fuel)%nat ->
   exists (w' : World) (m : nat),
     waitFor env fuel template timeout interval config w
     = Some (w', Return None)
     /\ (m <= n)%nat
     /\ trace w'
        = EvNow (clock env (S m + clock_reads w))
          :: rounds env template config (or_default 500 interval)
               (S (clock_reads w)) (searches w) m
          ++ EvNow startTime :: trace w
     /\ or_default 10000 timeout
        <= clock env (S m + clock_reads w) - startTime)
  /\
  (forall w' : World,
     waitFor env fuel template timeout interval config w
     = Some (w', Return None) ->
     exists t, hd_error (trace w') = Some (EvNow t)
       /\ or_default 10000 timeout <= t - startTime).
Proof.
  split.
  - intros Hnone Hexp Hfuel.
    destruct (waitFor_while_times_out env template config startTime
                (or_default 10000 timeout) (or_default 500 interval)
                n fuel started Hnone) as (m & Hm & Hat & Hrun).
    { cbn [started clock_reads]. now rewrite <- plus_n_Sm. }
    { exact Hfuel. }
    cbn [started clock_reads searches trace] in Hat, Hrun.
    rewrite <- plus_n_Sm in Hat, Hrun.
    eexists; exists m. rewrite waitFor_start, Hrun.
    cbn [trace]. repeat split; [exact Hm | exact Hat].
  - intros w'. rewrite waitFor_start. apply waitFor_while_null_is_late.
Qed.

(** C5. When the first search that does not come back empty returns a
    match, and the loop gets that far within the deadline, [waitFor]
    returns that match as converted by [fromMatchResultJs]; the search
    is the last event of the run, so no sleep separates it from the
    return. *)
Theorem waitFor_returns_first_match (k fuel : nat)
    (r : bot.MatchResultJs.t) :
  (forall i, (i < k)%nat ->
     native_findOnScreen env (i + searches w) buf cfg = Return None) ->
  native_findOnScreen env (k + searches w) buf cfg = Return (Some r) ->
  (forall i, (i <= k)%nat ->
     clock env (S i + clock_reads w) - startTime
     < or_default 10000 timeout) ->
  (k < fuel)%nat ->
  exists w' : World,
    waitFor env fuel template timeout interval config w
    = Some (w', Return (Some (fromMatchResultJs r)))
    /\ trace w'
       = EvFindOnScreen buf cfg (Return (Some r))
         :: EvNow (clock env (S k + clock_reads w))
         :: rounds env template config (or_default 500 interval)
              (S (clock_reads w)) (searches w) k
         ++ EvNow startTime :: trace w
    /\ searches w' = (S k + searches w)%nat.
Proof.
  intros Hmiss Hhit Hclock Hfuel.
  rewrite waitFor_start.
  replace fuel with (k + S (fuel - S k))%nat by lia.
  rewrite waitFor_while_rounds.
  - rewrite (waitFor_while_found _ _ _ _ _ _ _ _ r).
    + eexists; split; [reflexivity |].
      cbn [after_search after_rounds started trace searches clock_reads].
      rewrite <- plus_n_Sm. split; reflexivity.
    + cbn [after_rounds started clock_reads]. rewrite <- plus_n_Sm.
      apply (Hclock k). lia.
    + exact Hhit.
  - intros i Hi. cbn [started clock_reads]. rewrite <- plus_n_Sm.
    apply (Hclock i). lia.
  - intros i Hi. apply Hmiss, Hi.
Qed.

(** C2. [waitForGone] returns [true] at the first search that comes
    back empty, provided the loop gets that far within the deadline, and
    that search is the last event of the run (no sleep after it); when
    every search finds the template and the clock shows the timeout
    elapsed at some evaluation of the loop condition, it returns
    [false], its last event being the reading of a clock value at least
    [timeout] past the start; in any environment [false] is returned
    only right after such a reading. *)
Theorem waitForGone_true_when_gone_false_on_timeout (k fuel : nat) :
  ((forall i, (i < k)%nat -> exists r,
      native_findOnScreen env (i + searches w) buf cfg = Return (Some r)) ->
   native_findOnScreen env (k + searches w) buf cfg = Return None ->
   (forall i, (i <= k)%nat ->
      clock env (S i + clock_reads w) - startTime
      < or_default 10000 timeout) ->
   (k < fuel)%nat ->
   exists w' : World,
     waitForGone env fuel template timeout interval config w
     = Some (w', Return true)
     /\ trace w'
        = EvFindOnScreen buf cfg (Return None)
          :: EvNow (clock env (S k + clock_reads w))
          :: rounds env template config (or_default 500 interval)
               (S (clock_reads w)) (searches w) k
          ++ EvNow startTime :: trace w)
  /\
  ((forall i, (i < k)%nat -> exists r,
      native_findOnScreen env (i + searches w) buf cfg = Return (Some r)) ->
   or_default 10000 timeout <= clock env (S k + clock_reads w) - startTime ->
   (k < fuel)%nat ->
   exists (w' : World) (m : nat),
     waitForGone env fuel template timeout interval config w
     = Some (w', Return false)
     /\ (m <= k)%nat
     /\ trace w'
        = EvNow (clock env (S m + clock_reads w))
          :: rounds env template config (or_default 500 interval)
               (S (clock_reads w)) (searches w) m
          ++ EvNow startTime :: trace w
     /\ or_default 10000 timeout
        <= clock env (S m + clock_reads w) - startTime)
  /\
  (forall w' : World,
     waitForGone env fuel template timeout interval config w
     = Some (w', Return false) ->
     exists t, hd_error (trace w') = Some (EvNow t)
       /\ or_default 10000 timeout <= t - startTime).
Proof.
  split; [| split].
  - intros Hstill Hgone Hclock Hfuel.
    rewrite waitForGone_start.
    replace fuel with (k + S (fuel - S k))%nat by lia.
    rewrite waitForGone_while_rounds.
    + rewrite waitForGone_while_gone.
      * eexists; split; [reflexivity |].
        cbn [after_search after_rounds started trace searches clock_reads].
        now rewrite <- plus_n_Sm.
      * cbn [after_rounds started clock_reads]. rewrite <- plus_n_Sm.
        apply (Hclock k). lia.
      * exact Hgone.
    + intros i Hi. cbn [started clock_reads]. rewrite <- plus_n_Sm.
      apply (Hclock i). lia.
    + intros i Hi. apply Hstill, Hi.
  - intros Hall Hexp Hfuel.
    destruct (waitForGone_while_times_out env template config startTime
                (or_default 10000 timeout) (or_default 500 interval)
                k fuel started Hall) as (m & Hm & Hat & Hrun).
    { cbn [started clock_reads]. now rewrite <- plus_n_Sm. }
    { exact Hfuel. }
    cbn [started clock_reads searches trace] in Hat, Hrun.
    rewrite <- plus_n_Sm in Hat, Hrun.
    eexists; exists m. rewrite waitForGone_start, Hrun.
    cbn [trace]. repeat split; [exact Hm | exact Hat].
  - intros w'. rewrite waitForGone_start.
    apply waitForGone_while_false_is_late.
Qed.

(** C6. When a search throws, in [waitFor] after searches that found
    nothing and in [waitForGone] after searches that found the template,
    the wait ends with that very error; the throwing search is the last
    event of the run and the number of searches made stops there. *)
Theorem wait_propagates_search_error (k fuel : nat) (e : JsError) :
  native_findOnScreen env (k + searches w) buf cfg = Throw e ->
  (forall i, (i <= k)%nat ->
     clock env (S i + clock_reads w) - startTime
     < or_default 10000 timeout) ->
  (k < fuel)%nat ->
  ((forall i, (i < k)%nat ->
      native_findOnScreen env (i + searches w) buf cfg = Return None) ->
   exists w' : World,
     waitFor env fuel template timeout interval config w
     = Some (w', Throw e)
     /\ trace w'
        = EvFindOnScreen buf cfg (Throw e)
          :: EvNow (clock env (S k + clock_reads w))
          :: rounds env template config (or_default 500 interval)
               (S (clock_reads w)) (searches w) k
          ++ EvNow startTime :: trace w
     /\ searches w' = (S k + searches w)%nat)
  /\
  ((forall i, (i < k)%nat -> exists r,
      native_findOnScreen env (i + searches w) buf cfg = Return (Some r)) ->
   exists w' : World,
     waitForGone env fuel template timeout interval config w
     = Some (w', Throw e)
     /\ trace w'
        = EvFindOnScreen buf cfg (Throw e)
          :: EvNow (clock env (S k + clock_reads w))
          :: rounds env template config (or_default 500 interval)
               (S (clock_reads w)) (searches w) k
          ++ EvNow startTime :: trace w
     /\ searches w' = (S k + searches w)%nat).
Proof.
  intros Hthrow Hclock Hfuel.
  assert (Hbefore : forall i, (i < k)%nat ->
            clock env (i + clock_reads started) - startTime
            < or_default 10000 timeout).
  { intros i Hi. cbn [started clock_reads]. rewrite <- plus_n_Sm.
    apply (Hclock i). lia. }
  assert (Hat : clock env
                  (clock_reads
                     (after_rounds env template config
                        (or_default 500 interval) k started))
                - startTime < or_default 10000 timeout).
  { cbn [after_rounds started clock_reads]. rewrite <- plus_n_Sm.
    apply (Hclock k). lia. }
  split; intros Hprev.
  - rewrite waitFor_start.
    replace fuel with (k + S (fuel - S k))%nat by lia.
    rewrite waitFor_while_rounds by assumption.
    rewrite (waitFor_while_throws _ _ _ _ _ _ _ _ e Hat Hthrow).
    eexists; split; [reflexivity |].
    cbn [after_search after_rounds started trace searches clock_reads].
    rewrite <- plus_n_Sm. split; reflexivity.
  - rewrite waitForGone_start.
    replace fuel with (k + S (fuel - S k))%nat by lia.
    rewrite waitForGone_while_rounds by assumption.
    rewrite (waitForGone_while_throws _ _ _ _ _ _ _ _ e Hat Hthrow).
    eexists; split; [reflexivity |].
    cbn [after_search after_rounds started trace searches clock_reads].
    rewrite <- plus_n_Sm. split; reflexivity.
Qed.

End Waiting.


(* ================================================================== *)
(** ** The searches over the native engine *)

Section EngineProperties.
Variable I : Engine.Imaging.











End EngineProperties.

(** C3. Over the native engine and for one scene, template and
    configuration, [findOnScreen] and [findAllOnScreen] end alike: both
    throw the same error, or [findOnScreen] returns the first element of
    the list [findAllOnScreen] returns, and [null] exactly when that
    list is empty. *)
Theorem findOnScreen_is_head_of_findAllOnScreen (I : Engine.Imaging)
    (scenes : nat -> Engine.Scene I) (clk : nat -> Z)
    (template : ImageResource.t) (config : option MatchConfig.t)
    (w1 w2 : World) :
  scenes (searches w1) = scenes (searches w2) ->
  match findOnScreen (Engine.environment I scenes clk) template config w1,
        findAllOnScreen (Engine.environment I scenes clk) template config w2
  with
  | Some (_, Return m), Some (_, Return ms) =>
      m = hd_error ms /\ (m = None <-> ms = [])
  | Some (_, Throw e1), Some (_, Throw e2) => e1 = e2
  | _, _ => False
  end.
Proof.
  intros Hscene.
  unfold findOnScreen, findAllOnScreen, bind, bot_findOnScreen,
    bot_findAllOnScreen, ret.
  cbn [Engine.environment native_findOnScreen native_findAllOnScreen].
  unfold Engine.findOnScreen, Engine.findAllOnScreen.
  rewrite Hscene.
  destruct (Engine.search I (scenes (searches w2)) None
              (ImageResource.buffer template) (toMatchConfigJs config))
    as [rs | e]; cbn [Engine.and_then]; [| reflexivity].
  destruct rs as [| r rs]; cbn [hd_error map].
  - split; [reflexivity | split; reflexivity].
  - split; [reflexivity | split; discriminate].
Qed.

Lemma findOnScreen_is_head_of_findAllOnScreen_witness :
  exists w1 w2 m ms,
    findOnScreen toy_env sample_template (toy_config (7 # 10)) initial_world
    = Some (w1, Return (Some m))
    /\ findAllOnScreen toy_env sample_template (toy_config (7 # 10))
         initial_world
       = Some (w2, Return ms)
    /\ Some m = hd_error ms.
Proof.
  assert (H := findOnScreen_is_head_of_findAllOnScreen toy_imaging
                 (fun _ => (1920, 1080)) sample_clock sample_template
                 (toy_config (7 # 10)) initial_world initial_world eq_refl).
  fold toy_env in H.
  destruct (findOnScreen toy_env sample_template (toy_config (7 # 10))
              initial_world) as [[w1 [[m |] | e]] |] eqn:H1;
    try (vm_compute in H1; discriminate H1).
  destruct (findAllOnScreen toy_env sample_template (toy_config (7 # 10))
              initial_world) as [[w2 [ms | e]] |] eqn:H2;
    try (vm_compute in H2; discriminate H2).
  exists w1, w2, m, ms. repeat split. apply H.
Defined.



(* ================================================================== *)
(** ** Concrete runs *)

Lemma waitFor_never_found_times_out_witness :
  exists w' t,
    waitFor never_present 10 sample_template (Some 200) (Some 50)
      sample_config initial_world = Some (w', Return None)
    /\ hd_error (trace w') = Some (EvNow t)
    /\ 200 <= t - sample_clock 0.
Proof.
  destruct (proj1 (waitFor_never_found_times_out never_present
                     sample_template sample_config (Some 200) (Some 50)
                     initial_world 4 10))
    as (w' & m & Hrun & Hm & Htrace & Hlate).
  - intros i Hi. reflexivity.
  - vm_compute. discriminate.
  - lia.
  - exists w', (clock never_present (S m + clock_reads initial_world)).
    split; [exact Hrun |]. split; [now rewrite Htrace | exact Hlate].
Defined.

Lemma waitFor_returns_first_match_witness :
  exists w',
    waitFor appears_third 10 sample_template (Some 200) (Some 50)
      sample_config initial_world
    = Some (w', Return (Some (fromMatchResultJs sample_hit)))
    /\ hd_error (trace w')
       = Some (EvFindOnScreen (ImageResource.buffer sample_template)
                 (toMatchConfigJs sample_config)
                 (Return (Some sample_hit)))
    /\ searches w' = 3%nat.
Proof.
  destruct (waitFor_returns_first_match appears_third sample_template
              sample_config (Some 200) (Some 50) initial_world 2 10
              sample_hit)
    as (w' & Hrun & Htrace & Hcount).
  - intros [| [| i]] Hi; [reflexivity | reflexivity | lia].
  - reflexivity.
  - intros [| [| [| i]]] Hi; [reflexivity | reflexivity | reflexivity | lia].
  - lia.
  - exists w'. split; [exact Hrun |].
    split; [now rewrite Htrace | exact Hcount].
Defined.

Lemma waitForGone_true_when_gone_false_on_timeout_witness :
  (exists w',
     waitForGone gone_third 10 sample_template (Some 200) (Some 50)
       sample_config initial_world = Some (w', Return true)
     /\ hd_error (trace w')
        = Some (EvFindOnScreen (ImageResource.buffer sample_template)
                  (toMatchConfigJs sample_config) (Return None)))
  /\ (exists w' t,
        waitForGone always_present 10 sample_template (Some 200) (Some 50)
          sample_config initial_world = Some (w', Return false)
        /\ hd_error (trace w') = Some (EvNow t)
        /\ 200 <= t - sample_clock 0).
Proof.
  split.
  - destruct (proj1 (waitForGone_true_when_gone_false_on_timeout gone_third
                       sample_template sample_config (Some 200) (Some 50)
                       initial_world 2 10))
      as (w' & Hrun & Htrace).
    + intros [| [| i]] Hi;
        [exists sample_hit; reflexivity | exists sample_hit; reflexivity | lia].
    + reflexivity.
    + intros [| [| [| i]]] Hi;
        [reflexivity | reflexivity | reflexivity | lia].
    + lia.
    + exists w'. split; [exact Hrun | now rewrite Htrace].
  - destruct (proj1 (proj2 (waitForGone_true_when_gone_false_on_timeout
                       always_present sample_template sample_config
                       (Some 200) (Some 50) initial_world 4 10)))
      as (w' & m & Hrun & Hm & Htrace & Hlate).
    + intros i Hi. exists sample_hit. reflexivity.
    + vm_compute. discriminate.
    + lia.
    + exists w', (clock always_present (S m + clock_reads initial_world)).
      split; [exact Hrun |]. split; [now rewrite Htrace | exact Hlate].
Defined.

Lemma wait_propagates_search_error_witness :
  (exists w',
     waitFor fails_third_absent 10 sample_template (Some 200) (Some 50)
       sample_config initial_world = Some (w', Throw DecodeError)
     /\ searches w' = 3%nat)
  /\ (exists w',
        waitForGone fails_third_present 10 sample_template (Some 200)
          (Some 50) sample_config initial_world
        = Some (w', Throw DecodeError)
        /\ searches w' = 3%nat).
Proof.
  split.
  - destruct (proj1 (wait_propagates_search_error fails_third_absent
                       sample_template sample_config (Some 200) (Some 50)
                       initial_world 2 10 DecodeError eq_refl
                       ltac:(intros [| [| [| i]]] Hi;
                             [reflexivity | reflexivity | reflexivity | lia])
                       ltac:(lia)))
      as (w' & Hrun & _ & Hcount).
    + intros [| [| i]] Hi; [reflexivity | reflexivity | lia].
    + exists w'. split; [exact Hrun | exact Hcount].
  - destruct (proj2 (wait_propagates_search_error fails_third_present
                       sample_template sample_config (Some 200) (Some 50)
                       initial_world 2 10 DecodeError eq_refl
                       ltac:(intros [| [| [| i]]] Hi;
                             [reflexivity | reflexivity | reflexivity | lia])
                       ltac:(lia)))
      as (w' & Hrun & _ & Hcount).
    + intros [| [| i]] Hi;
        [exists sample_hit; reflexivity | exists sample_hit; reflexivity | lia].
    + exists w'. split; [exact Hrun | exact Hcount].
Defined.


(* ================================================================== *)
(** * Further properties of the image-match module *)

(** ** Centre and bounds *)

(** The centre of a match with a non-negative extent lies within its
    bounds, so a click at the centre lands on the match. *)
Theorem getMatchCenter_within_bounds (m : MatchResult.t) :
  0 <= MatchResult.width m -> 0 <= MatchResult.height m ->
  Bounds.left (getMatchBounds m) <= Point.x (getMatchCenter m)
    <= Bounds.right (getMatchBounds m)
  /\ Bounds.top (getMatchBounds m) <= Point.y (getMatchCenter m)
       <= Bounds.bottom (getMatchBounds m).
Proof.
  intros Hw Hh. unfold getMatchCenter, getMatchBounds.
  cbn [Point.x Point.y Bounds.left Bounds.right Bounds.top Bounds.bottom].
  rewrite !plus_half_floor.
  pose proof (Z.div_mod (2 * MatchResult.x m + MatchResult.width m + 1) 2
                ltac:(lia)).
  pose proof (Z.mod_pos_bound
                (2 * MatchResult.x m + MatchResult.width m + 1) 2 ltac:(lia)).
  pose proof (Z.div_mod (2 * MatchResult.y m + MatchResult.height m + 1) 2
                ltac:(lia)).
  pose proof (Z.mod_pos_bound
                (2 * MatchResult.y m + MatchResult.height m + 1) 2
                ltac:(lia)).
  lia.
Qed.

Lemma getMatchCenter_within_bounds_witness :
  Bounds.left (getMatchBounds (fromMatchResultJs sample_hit))
    <= Point.x (getMatchCenter (fromMatchResultJs sample_hit))
    <= Bounds.right (getMatchBounds (fromMatchResultJs sample_hit))
  /\ Bounds.top (getMatchBounds (fromMatchResultJs sample_hit))
       <= Point.y (getMatchCenter (fromMatchResultJs sample_hit))
       <= Bounds.bottom (getMatchBounds (fromMatchResultJs sample_hit)).
Proof.
  apply getMatchCenter_within_bounds; cbn; lia.
Defined.

(** Moving a match by whole pixels moves its centre by the same
    amount. *)
Theorem getMatchCenter_translation (m : MatchResult.t) (dx dy : Z) :
  getMatchCenter
    {| MatchResult.x := MatchResult.x m + dx;
       MatchResult.y := MatchResult.y m + dy;
       MatchResult.width := MatchResult.width m;
       MatchResult.height := MatchResult.height m;
       MatchResult.confidence := MatchResult.confidence m;
       MatchResult.scale := MatchResult.scale m |}
  = {| Point.x := Point.x (getMatchCenter m) + dx;
       Point.y := Point.y (getMatchCenter m) + dy |}.
Proof.
  unfold getMatchCenter. cbn [MatchResult.x MatchResult.y MatchResult.width
    MatchResult.height Point.x Point.y].
  rewrite !plus_half_floor. f_equal.
  - replace (2 * (MatchResult.x m + dx) + MatchResult.width m + 1)
      with (2 * MatchResult.x m + MatchResult.width m + 1 + dx * 2) by lia.
    apply Z.div_add. lia.
  - replace (2 * (MatchResult.y m + dy) + MatchResult.height m + 1)
      with (2 * MatchResult.y m + MatchResult.height m + 1 + dy * 2) by lia.
    apply Z.div_add. lia.
Qed.

(** ** Every finished run of the wait loops *)

Section RunShape.
Variable env : Env.
Variables (template : ImageResource.t) (config : option MatchConfig.t).
Variables (startTime timeout interval : Z).

Let buf := ImageResource.buffer template.
Let cfg := toMatchConfigJs config.

(** A finished run of the [waitFor] loop is [n] rounds that found
    nothing, then an expired deadline check or a decisive search. *)
Lemma waitFor_while_shape (fuel : nat) (w w' : World)
    (res : Completion (option MatchResult.t)) :
  waitFor_while env fuel startTime timeout interval template config w
  = Some (w', res) ->
  exists n : nat,
    (n < fuel)%nat
    /\ (forall i, (i < n)%nat ->
          clock env (i + clock_reads w) - startTime < timeout
          /\ native_findOnScreen env (i + searches w) buf cfg = Return None)
    /\ ((timeout <= clock env (n + clock_reads w) - startTime
         /\ res = Return None
         /\ w' = {| clock_reads := S (n + clock_reads w);
                    searches := n + searches w;
                    trace := EvNow (clock env (n + clock_reads w))
                             :: rounds env template config interval
                                  (clock_reads w) (searches w) n
                             ++ trace w |})
        \/ (clock env (n + clock_reads w) - startTime < timeout
            /\ w' = after_search env template config
                      (after_rounds env template config interval n w)
                      (native_findOnScreen env (n + searches w) buf cfg)
            /\ ((exists r,
                   native_findOnScreen env (n + searches w) buf cfg
                   = Return (Some r)
                   /\ res = Return (Some (fromMatchResultJs r)))
                \/ (exists e,
                      native_findOnScreen env (n + searches w) buf cfg
                      = Throw e
                      /\ res = Throw e)))).
Proof.
  revert w; induction fuel as [| fuel IH]; intros w Hrun; [discriminate |].
  destruct (Z_lt_le_dec (clock env (clock_reads w) - startTime) timeout)
    as [Hlt | Hge].
  - destruct (native_findOnScreen env (searches w) buf cfg)
      as [[r |] | e] eqn:Hn.
    + rewrite (waitFor_while_found env template config startTime timeout
                 interval fuel w r Hlt Hn) in Hrun.
      inversion Hrun; subst w' res; clear Hrun.
      exists 0%nat. split; [lia |]. split; [intros i Hi; lia |].
      right. cbn [Nat.add]. split; [exact Hlt |].
      split; [now destruct w; fold buf cfg; rewrite Hn |].
      left. exists r. fold buf cfg. now rewrite Hn.
    + rewrite (waitFor_while_round env template config startTime timeout
                 interval fuel w Hlt Hn) in Hrun.
      destruct (IH _ Hrun) as (n & Hfuel & Hbefore & Hend).
      exists (S n). split; [lia |]. split.
      * intros [| i] Hi; [now split |].
        destruct (Hbefore i ltac:(lia)) as [Hc Hs].
        cbn [after_rounds clock_reads searches] in Hc, Hs.
        now rewrite <- !plus_n_Sm in Hc, Hs.
      * cbn [after_rounds clock_reads searches trace] in Hend.
        rewrite <- !plus_n_Sm in Hend. cbn [Nat.add] in Hend.
        rewrite after_rounds_succ in Hend.
        destruct Hend as [(Hexp & Hres & Hw) | (Hin & Hw & Hout)].
        -- left. split; [exact Hexp |]. split; [exact Hres |].
           rewrite Hw. cbn [rounds Nat.add app]. now rewrite <- app_assoc.
        -- right. split; [exact Hin |]. split; [exact Hw | exact Hout].
    + rewrite (waitFor_while_throws env template config startTime timeout
                 interval fuel w e Hlt Hn) in Hrun.
      inversion Hrun; subst w' res; clear Hrun.
      exists 0%nat. split; [lia |]. split; [intros i Hi; lia |].
      right. cbn [Nat.add]. split; [exact Hlt |].
      split; [now destruct w; fold buf cfg; rewrite Hn |].
      right. exists e. fold buf cfg. now rewrite Hn.
  - rewrite (waitFor_while_expired env template config startTime timeout
               interval fuel w Hge) in Hrun.
    inversion Hrun; subst w' res; clear Hrun.
    exists 0%nat. split; [lia |]. split; [intros i Hi; lia |].
    left. cbn [Nat.add rounds app]. now repeat split.
Qed.

(** A finished run of the [waitForGone] loop is [n] rounds that still
    found the template, then an expired deadline check or a decisive
    search. *)
Lemma waitForGone_while_shape (fuel : nat) (w w' : World)
    (res : Completion bool) :
  waitForGone_while env fuel startTime timeout interval template config w
  = Some (w', res) ->
  exists n : nat,
    (n < fuel)%nat
    /\ (forall i, (i < n)%nat ->
          clock env (i + clock_reads w) - startTime < timeout
          /\ exists r,
               native_findOnScreen env (i + searches w) buf cfg
               = Return (Some r))
    /\ ((timeout <= clock env (n + clock_reads w) - startTime
         /\ res = Return false
         /\ w' = {| clock_reads := S (n + clock_reads w);
                    searches := n + searches w;
                    trace := EvNow (clock env (n + clock_reads w))
                             :: rounds env template config interval
                                  (clock_reads w) (searches w) n
                             ++ trace w |})
        \/ (clock env (n + clock_reads w) - startTime < timeout
            /\ w' = after_search env template config
                      (after_rounds env template config interval n w)
                      (native_findOnScreen env (n + searches w) buf cfg)
            /\ ((native_findOnScreen env (n + searches w) buf cfg
                 = Return None
                 /\ res = Return true)
                \/ (exists e,
                      native_findOnScreen env (n + searches w) buf cfg
                      = Throw e
                      /\ res = Throw e)))).
Proof.
  revert w; induction fuel as [| fuel IH]; intros w Hrun; [discriminate |].
  destruct (Z_lt_le_dec (clock env (clock_reads w) - startTime) timeout)
    as [Hlt | Hge].
  - destruct (native_findOnScreen env (searches w) buf cfg)
      as [[r |] | e] eqn:Hn.
    + rewrite (waitForGone_while_round env template config startTime timeout
                 interval fuel w r Hlt Hn) in Hrun.
      destruct (IH _ Hrun) as (n & Hfuel & Hbefore & Hend).
      exists (S n). split; [lia |]. split.
      * intros [| i] Hi; [split; [exact Hlt | now exists r] |].
        destruct (Hbefore i ltac:(lia)) as [Hc Hs].
        cbn [after_rounds clock_reads searches] in Hc, Hs.
        now rewrite <- !plus_n_Sm in Hc, Hs.
      * cbn [after_rounds clock_reads searches trace] in Hend.
        rewrite <- !plus_n_Sm in Hend. cbn [Nat.add] in Hend.
        rewrite after_rounds_succ in Hend.
        destruct Hend as [(Hexp & Hres & Hw) | (Hin & Hw & Hout)].
        -- left. split; [exact Hexp |]. split; [exact Hres |].
           rewrite Hw. cbn [rounds Nat.add app]. now rewrite <- app_assoc.
        -- right. split; [exact Hin |]. split; [exact Hw | exact Hout].
    + rewrite (waitForGone_while_gone env template config startTime timeout
                 interval fuel w Hlt Hn) in Hrun.
      inversion Hrun; subst w' res; clear Hrun.
      exists 0%nat. split; [lia |]. split; [intros i Hi; lia |].
      right. cbn [Nat.add]. split; [exact Hlt |].
      split; [now destruct w; fold buf cfg; rewrite Hn |].
      left. fold buf cfg. now rewrite Hn.
    + rewrite (waitForGone_while_throws env template config startTime timeout
                 interval fuel w e Hlt Hn) in Hrun.
      inversion Hrun; subst w' res; clear Hrun.
      exists 0%nat. split; [lia |]. split; [intros i Hi; lia |].
      right. cbn [Nat.add]. split; [exact Hlt |].
      split; [now destruct w; fold buf cfg; rewrite Hn |].
      right. exists e. fold buf cfg. now rewrite Hn.
  - rewrite (waitForGone_while_expired env template config startTime timeout
               interval fuel w Hge) in Hrun.
    inversion Hrun; subst w' res; clear Hrun.
    exists 0%nat. split; [lia |]. split; [intros i Hi; lia |].
    left. cbn [Nat.add rounds app]. now repeat split.
Qed.

(** Whatever the searches return, the [waitFor] loop ends by the first
    deadline check that finds the timeout elapsed, having searched at
    most once per check before it. *)
Lemma waitFor_while_ends (n fuel : nat) (w : World) :
  timeout <= clock env (n + clock_reads w) - startTime ->
  (n < fuel)%nat ->
  exists w' res,
    waitFor_while env fuel startTime timeout interval template config w
    = Some (w', res)
    /\ (searches w' <= n + searches w)%nat.
Proof.
  revert fuel w; induction n as [| n IH]; intros fuel w Hexp Hfuel;
    (destruct fuel as [| fuel]; [lia |]).
  - rewrite (waitFor_while_expired env template config startTime timeout
               interval fuel w Hexp).
    eexists; eexists; split; [reflexivity | cbn; lia].
  - destruct (Z_lt_le_dec (clock env (clock_reads w) - startTime) timeout)
      as [Hlt | Hge].
    + destruct (native_findOnScreen env (searches w) buf cfg)
        as [[r |] | e] eqn:Hn.
      * rewrite (waitFor_while_found env template config startTime timeout
                   interval fuel w r Hlt Hn).
        eexists; eexists; split; [reflexivity | cbn; lia].
      * rewrite (waitFor_while_round env template config startTime timeout
                   interval fuel w Hlt Hn).
        destruct (IH fuel (after_rounds env template config interval 1 w))
          as (w' & res & Hrun & Hcount).
        { cbn [after_rounds clock_reads]. now rewrite <- plus_n_Sm. }
        { lia. }
        exists w', res. split; [exact Hrun |].
        cbn [after_rounds searches] in Hcount. lia.
      * rewrite (waitFor_while_throws env template config startTime timeout
                   interval fuel w e Hlt Hn).
        eexists; eexists; split; [reflexivity | cbn; lia].
    + rewrite (waitFor_while_expired env template config startTime timeout
                 interval fuel w Hge).
      eexists; eexists; split; [reflexivity | cbn; lia].
Qed.

Lemma waitForGone_while_ends (n fuel : nat) (w : World) :
  timeout <= clock env (n + clock_reads w) - startTime ->
  (n < fuel)%nat ->
  exists w' res,
    waitForGone_while env fuel startTime timeout interval template config w
    = Some (w', res)
    /\ (searches w' <= n + searches w)%nat.
Proof.
  revert fuel w; induction n as [| n IH]; intros fuel w Hexp Hfuel;
    (destruct fuel as [| fuel]; [lia |]).
  - rewrite (waitForGone_while_expired env template config startTime timeout
               interval fuel w Hexp).
    eexists; eexists; split; [reflexivity | cbn; lia].
  - destruct (Z_lt_le_dec (clock env (clock_reads w) - startTime) timeout)
      as [Hlt | Hge].
    + destruct (native_findOnScreen env (searches w) buf cfg)
        as [[r |] | e] eqn:Hn.
      * rewrite (waitForGone_while_round env template config startTime
                   timeout interval fuel w r Hlt Hn).
        destruct (IH fuel (after_rounds env template config interval 1 w))
          as (w' & res & Hrun & Hcount).
        { cbn [after_rounds clock_reads]. now rewrite <- plus_n_Sm. }
        { lia. }
        exists w', res. split; [exact Hrun |].
        cbn [after_rounds searches] in Hcount. lia.
      * rewrite (waitForGone_while_gone env template config startTime
                   timeout interval fuel w Hlt Hn).
        eexists; eexists; split; [reflexivity | cbn; lia].
      * rewrite (waitForGone_while_throws env template config startTime
                   timeout interval fuel w e Hlt Hn).
        eexists; eexists; split; [reflexivity | cbn; lia].
    + rewrite (waitForGone_while_expired env template config startTime
                 timeout interval fuel w Hge).
      eexists; eexists; split; [reflexivity | cbn; lia].
Qed.

End RunShape.

(** A clock that gains at least [step] between consecutive readings
    from position [from] on has gained [n * step] after [n] of them. *)
Lemma clock_gain (env : Env) (step : Z) (from n : nat) :
  (forall k, clock env (k + from) + step <= clock env (S k + from)) ->
  clock env from + Z.of_nat n * step <= clock env (n + from).
Proof.
  intros Hstep. induction n as [| n IH].
  - cbn. lia.
  - specialize (Hstep n). lia.
Qed.

(** Every finished run of [waitFor] is [n] rounds of a clock reading
    within the deadline, a search that found nothing and a sleep of
    [interval], followed by one of three endings: a clock reading that
    shows the timeout elapsed ([null]); a search that returned a match
    (that match, converted); a search that threw (that error). So a
    match or an error comes from the last search and from nothing
    else, and one search is made per sleep, plus the decisive one. *)
Theorem waitFor_finished_run (env : Env) (template : ImageResource.t)
    (timeout interval : option Z) (config : option MatchConfig.t)
    (fuel : nat) (w w' : World) (res : Completion (option MatchResult.t)) :
  waitFor env fuel template timeout interval config w = Some (w', res) ->
  exists n : nat,
    (forall i, (i < n)%nat ->
       native_findOnScreen env (i + searches w)
         (ImageResource.buffer template) (toMatchConfigJs config)
       = Return None
       /\ clock env (S i + clock_reads w) - clock env (clock_reads w)
          < or_default 10000 timeout)
    /\ match res with
       | Return None =>
           or_default 10000 timeout
           <= clock env (S n + clock_reads w) - clock env (clock_reads w)
           /\ searches w' = (n + searches w)%nat
           /\ trace w'
              = EvNow (clock env (S n + clock_reads w))
                :: rounds env template config (or_default 500 interval)
                     (S (clock_reads w)) (searches w) n
                ++ EvNow (clock env (clock_reads w)) :: trace w
       | Return (Some m) =>
           exists r,
             native_findOnScreen env (n + searches w)
               (ImageResource.buffer template) (toMatchConfigJs config)
             = Return (Some r)
             /\ m = fromMatchResultJs r
             /\ searches w' = (S n + searches w)%nat
             /\ trace w'
                = EvFindOnScreen (ImageResource.buffer template)
                    (toMatchConfigJs config) (Return (Some r))
                  :: EvNow (clock env (S n + clock_reads w))
                  :: rounds env template config (or_default 500 interval)
                       (S (clock_reads w)) (searches w) n
                  ++ EvNow (clock env (clock_reads w)) :: trace w
       | Throw e =>
           native_findOnScreen env (n + searches w)
             (ImageResource.buffer template) (toMatchConfigJs config)
           = Throw e
           /\ searches w' = (S n + searches w)%nat
           /\ trace w'
              = EvFindOnScreen (ImageResource.buffer template)
                  (toMatchConfigJs config) (Throw e)
                :: EvNow (clock env (S n + clock_reads w))
                :: rounds env template config (or_default 500 interval)
                     (S (clock_reads w)) (searches w) n
                ++ EvNow (clock env (clock_reads w)) :: trace w
       end.
Proof.
  intros Hrun. rewrite waitFor_start in Hrun.
  apply waitFor_while_shape in Hrun.
  destruct Hrun as (n & _ & Hbefore & Hend).
  cbn [clock_reads searches trace] in Hbefore, Hend.
  exists n. split.
  - intros i Hi. destruct (Hbefore i Hi) as [Hc Hs].
    rewrite <- plus_n_Sm in Hc. now split.
  - rewrite <- !plus_n_Sm in Hend.
    destruct Hend as [(Hexp & -> & ->) | (Hin & -> & [(r & Hr & ->) | (e & He & ->)])].
    + cbn [searches trace]. now repeat split.
    + exists r. rewrite Hr.
      cbn [after_search after_rounds searches trace clock_reads].
      rewrite <- plus_n_Sm. now repeat split.
    + rewrite He.
      cbn [after_search after_rounds searches trace clock_reads].
      rewrite <- plus_n_Sm. now repeat split.
Qed.

Lemma waitFor_finished_run_witness :
  exists w' m n,
    waitFor appears_third 10 sample_template (Some 200) (Some 50)
      sample_config initial_world = Some (w', Return (Some m))
    /\ m = fromMatchResultJs sample_hit
    /\ searches w' = S n.
Proof.
  destruct (waitFor appears_third 10 sample_template (Some 200) (Some 50)
              sample_config initial_world)
    as [[w' [[m |] | e]] |] eqn:Hrun;
    try (vm_compute in Hrun; discriminate Hrun).
  destruct (waitFor_finished_run _ _ _ _ _ _ _ _ _ Hrun)
    as (n & _ & r & Hr & Hm & Hcount & _).
  exists w', m, n. split; [reflexivity |]. split.
  - rewrite Hm. f_equal.
    unfold appears_third, scripted in Hr. cbn [native_findOnScreen] in Hr.
    destruct (_ <? _)%nat in Hr; [discriminate | now inversion Hr].
  - rewrite Hcount. cbn. now rewrite <- plus_n_O.
Defined.

(** Every finished run of [waitForGone] is [n] rounds of a clock
    reading within the deadline, a search that still found the template
    and a sleep of [interval], followed by one of three endings: a
    clock reading that shows the timeout elapsed ([false]); a search
    that came back empty ([true]); a search that threw (that error). *)
Theorem waitForGone_finished_run (env : Env) (template : ImageResource.t)
    (timeout interval : option Z) (config : option MatchConfig.t)
    (fuel : nat) (w w' : World) (res : Completion bool) :
  waitForGone env fuel template timeout interval config w = Some (w', res) ->
  exists n : nat,
    (forall i, (i < n)%nat ->
       (exists r,
          native_findOnScreen env (i + searches w)
            (ImageResource.buffer template) (toMatchConfigJs config)
          = Return (Some r))
       /\ clock env (S i + clock_reads w) - clock env (clock_reads w)
          < or_default 10000 timeout)
    /\ match res with
       | Return false =>
           or_default 10000 timeout
           <= clock env (S n + clock_reads w) - clock env (clock_reads w)
           /\ searches w' = (n + searches w)%nat
           /\ trace w'
              = EvNow (clock env (S n + clock_reads w))
                :: rounds env template config (or_default 500 interval)
                     (S (clock_reads w)) (searches w) n
                ++ EvNow (clock env (clock_reads w)) :: trace w
       | Return true =>
           native_findOnScreen env (n + searches w)
             (ImageResource.buffer template) (toMatchConfigJs config)
           = Return None
           /\ searches w' = (S n + searches w)%nat
           /\ trace w'
              = EvFindOnScreen (ImageResource.buffer template)
                  (toMatchConfigJs config) (Return None)
                :: EvNow (clock env (S n + clock_reads w))
                :: rounds env template config (or_default 500 interval)
                     (S (clock_reads w)) (searches w) n
                ++ EvNow (clock env (clock_reads w)) :: trace w
       | Throw e =>
           native_findOnScreen env (n + searches w)
             (ImageResource.buffer template) (toMatchConfigJs config)
           = Throw e
           /\ searches w' = (S n + searches w)%nat
           /\ trace w'
              = EvFindOnScreen (ImageResource.buffer template)
                  (toMatchConfigJs config) (Throw e)
                :: EvNow (clock env (S n + clock_reads w))
                :: rounds env template config (or_default 500 interval)
                     (S (clock_reads w)) (searches w) n
                ++ EvNow (clock env (clock_reads w)) :: trace w
       end.
Proof.
  intros Hrun. rewrite waitForGone_start in Hrun.
  apply waitForGone_while_shape in Hrun.
  destruct Hrun as (n & _ & Hbefore & Hend).
  cbn [clock_reads searches trace] in Hbefore, Hend.
  exists n. split.
  - intros i Hi. destruct (Hbefore i Hi) as [Hc Hs].
    rewrite <- plus_n_Sm in Hc. now split.
  - rewrite <- !plus_n_Sm in Hend.
    destruct Hend as [(Hexp & -> & ->) | (Hin & -> & [(Hr & ->) | (e & He & ->)])].
    + cbn [searches trace]. now repeat split.
    + rewrite Hr.
      cbn [after_search after_rounds searches trace clock_reads].
      rewrite <- plus_n_Sm. now repeat split.
    + rewrite He.
      cbn [after_search after_rounds searches trace clock_reads].
      rewrite <- plus_n_Sm. now repeat split.
Qed.

Lemma waitForGone_finished_run_witness :
  exists w' n,
    waitForGone gone_third 10 sample_template (Some 200) (Some 50)
      sample_config initial_world = Some (w', Return true)
    /\ searches w' = S n.
Proof.
  destruct (waitForGone gone_third 10 sample_template (Some 200) (Some 50)
              sample_config initial_world)
    as [[w' [[|] | e]] |] eqn:Hrun;
    try (vm_compute in Hrun; discriminate Hrun).
  destruct (waitForGone_finished_run _ _ _ _ _ _ _ _ _ Hrun)
    as (n & _ & _ & Hcount & _).
  exists w', n. split; [reflexivity |].
  rewrite Hcount. cbn. now rewrite <- plus_n_O.
Defined.

(** Whatever the searches return, both waits end once the clock has
    advanced far enough: if it does not run backwards between the first
    two readings and gains at least [step] from one deadline check to
    the next, and [n * step] covers the timeout, then each wait ends
    (with any fuel above [n]) after at most [n] searches. *)
Theorem wait_ends_when_clock_advances (env : Env)
    (template : ImageResource.t) (timeout interval : option Z)
    (config : option MatchConfig.t) (w : World) (step : Z)
    (n fuel : nat) :
  clock env (clock_reads w) <= clock env (S (clock_reads w)) ->
  (forall k, clock env (k + S (clock_reads w)) + step
             <= clock env (S k + S (clock_reads w))) ->
  or_default 10000 timeout <= Z.of_nat n * step ->
  (n < fuel)%nat ->
  (exists w' res,
     waitFor env fuel template timeout interval config w = Some (w', res)
     /\ (searches w' <= n + searches w)%nat)
  /\ (exists w' res,
        waitForGone env fuel template timeout interval config w
        = Some (w', res)
        /\ (searches w' <= n + searches w)%nat).
Proof.
  intros Hfirst Hstep Hcover Hfuel.
  pose proof (clock_gain env step (S (clock_reads w)) n Hstep) as Hgain.
  split.
  - rewrite waitFor_start.
    destruct (waitFor_while_ends env template config
                (clock env (clock_reads w)) (or_default 10000 timeout)
                (or_default 500 interval) n fuel
                {| clock_reads := S (clock_reads w);
                   searches := searches w;
                   trace := EvNow (clock env (clock_reads w)) :: trace w |})
      as (w' & res & Hrun & Hcount);
      [cbn [clock_reads]; lia | exact Hfuel |].
    exists w', res. split; [exact Hrun | exact Hcount].
  - rewrite waitForGone_start.
    destruct (waitForGone_while_ends env template config
                (clock env (clock_reads w)) (or_default 10000 timeout)
                (or_default 500 interval) n fuel
                {| clock_reads := S (clock_reads w);
                   searches := searches w;
                   trace := EvNow (clock env (clock_reads w)) :: trace w |})
      as (w' & res & Hrun & Hcount);
      [cbn [clock_reads]; lia | exact Hfuel |].
    exists w', res. split; [exact Hrun | exact Hcount].
Qed.

Lemma sample_clock_step (from k : nat) :
  sample_clock (k + S from) + 55 <= sample_clock (S k + S from).
Proof.
  unfold sample_clock. rewrite <- !plus_n_Sm. cbn [Nat.add Nat.pred]. lia.
Qed.

Lemma wait_ends_when_clock_advances_witness :
  (exists w' res,
     waitFor appears_third 5 sample_template (Some 200) (Some 50)
       sample_config initial_world = Some (w', res)
     /\ (searches w' <= 4)%nat)
  /\ (exists w' res,
        waitForGone always_present 5 sample_template (Some 200) (Some 50)
          sample_config initial_world = Some (w', res)
        /\ (searches w' <= 4)%nat).
Proof.
  split.
  - apply (proj1 (wait_ends_when_clock_advances appears_third
                    sample_template (Some 200) (Some 50) sample_config
                    initial_world 55 4 5
                    ltac:(vm_compute; discriminate)
                    (sample_clock_step 0)
                    ltac:(vm_compute; discriminate) ltac:(lia))).
  - apply (proj2 (wait_ends_when_clock_advances always_present
                    sample_template (Some 200) (Some 50) sample_config
                    initial_world 55 4 5
                    ltac:(vm_compute; discriminate)
                    (sample_clock_step 0)
                    ltac:(vm_compute; discriminate) ltac:(lia))).
Defined.

(** ** Templates loaded from files *)

(** Two computations that agree on every world, followed by
    continuations that agree, agree. *)
Lemma bind_ext {A B} (m1 m2 : Eff A) (k1 k2 : A -> Eff B) (w : World) :
  (forall w0, m1 w0 = m2 w0) ->
  (forall a w0, k1 a w0 = k2 a w0) ->
  bind m1 k1 w = bind m2 k2 w.
Proof.
  intros Hm Hk. unfold bind. rewrite Hm.
  destruct (m2 w) as [[w' [a | e]] |]; [apply Hk | reflexivity | reflexivity].
Qed.

Section BufferOnly.
Variable env : Env.
Variables t1 t2 : ImageResource.t.
Variable config : option MatchConfig.t.
Hypothesis same_buffer : ImageResource.buffer t1 = ImageResource.buffer t2.

Lemma findOnScreen_buffer_only (w : World) :
  findOnScreen env t1 config w = findOnScreen env t2 config w.
Proof. unfold findOnScreen. now rewrite same_buffer. Qed.

Lemma waitFor_while_buffer_only (startTime timeout interval : Z)
    (fuel : nat) (w : World) :
  waitFor_while env fuel startTime timeout interval t1 config w
  = waitFor_while env fuel startTime timeout interval t2 config w.
Proof.
  revert w; induction fuel as [| fuel IH]; intros w; [reflexivity |].
  cbn [waitFor_while]. apply bind_ext; [reflexivity |].
  intros now_ w0. destruct (_ <? _)%Z; [| reflexivity].
  apply bind_ext; [apply findOnScreen_buffer_only |].
  intros [m |] w1; [reflexivity |].
  apply bind_ext; [reflexivity | intros _; apply IH].
Qed.

Lemma waitForGone_while_buffer_only (startTime timeout interval : Z)
    (fuel : nat) (w : World) :
  waitForGone_while env fuel startTime timeout interval t1 config w
  = waitForGone_while env fuel startTime timeout interval t2 config w.
Proof.
  revert w; induction fuel as [| fuel IH]; intros w; [reflexivity |].
  cbn [waitForGone_while]. apply bind_ext; [reflexivity |].
  intros now_ w0. destruct (_ <? _)%Z; [| reflexivity].
  apply bind_ext; [apply findOnScreen_buffer_only |].
  intros [m |] w1; [| reflexivity].
  apply bind_ext; [reflexivity | intros _; apply IH].
Qed.

End BufferOnly.

(** A template loaded from a file, by [imageResource] or by
    [imageResourceSync], records the path and holds the bytes read; in
    every search and wait it behaves exactly like
    [imageResourceFromBuffer] of those bytes, for the path is never
    consulted. *)
Theorem file_template_behaves_like_buffer
    (readFile : string -> Completion Buffer) (path : string)
    (bytes : Buffer) :
  readFile path = Return bytes ->
  exists t : ImageResource.t,
    imageResource readFile path = Return t
    /\ imageResourceSync readFile path = Return t
    /\ ImageResource.path t = Some path
    /\ ImageResource.buffer t = bytes
    /\ forall (env : Env) (config : option MatchConfig.t) (w : World),
         findOnScreen env t config w
         = findOnScreen env (imageResourceFromBuffer bytes) config w
         /\ findAllOnScreen env t config w
            = findAllOnScreen env (imageResourceFromBuffer bytes) config w
         /\ (forall x y wd ht,
               findInRegion env t x y wd ht config w
               = findInRegion env (imageResourceFromBuffer bytes)
                   x y wd ht config w
               /\ findAllInRegion env t x y wd ht config w
                  = findAllInRegion env (imageResourceFromBuffer bytes)
                      x y wd ht config w)
         /\ (forall fuel timeout interval,
               waitFor env fuel t timeout interval config w
               = waitFor env fuel (imageResourceFromBuffer bytes)
                   timeout interval config w
               /\ waitForGone env fuel t timeout interval config w
                  = waitForGone env fuel (imageResourceFromBuffer bytes)
                      timeout interval config w).
Proof.
  intros Hread.
  exists {| ImageResource.buffer := bytes; ImageResource.path := Some path |}.
  unfold imageResource, imageResourceSync. rewrite Hread.
  repeat split; try reflexivity.
  - rewrite !waitFor_start. now apply waitFor_while_buffer_only.
  - rewrite !waitForGone_start. now apply waitForGone_while_buffer_only.
Qed.

Lemma file_template_behaves_like_buffer_witness :
  exists t : ImageResource.t,
    imageResourceSync sample_fs "./button.png"%string = Return t
    /\ ImageResource.path t = Some "./button.png"%string
    /\ waitFor appears_third 10 t (Some 200) (Some 50) sample_config
         initial_world
       = waitFor appears_third 10 sample_template (Some 200) (Some 50)
           sample_config initial_world.
Proof.
  destruct (file_template_behaves_like_buffer sample_fs "./button.png"%string
              [x89; x50; x4e; x47]%byte eq_refl)
    as (t & _ & Hsync & Hpath & _ & Hsame).
  exists t. split; [exact Hsync |]. split; [exact Hpath |].
  apply (proj2 (proj2 (proj2
           (Hsame appears_third sample_config initial_world)))).
Defined.

(** ** The search wrappers *)


(* ================================================================== *)
(** * Properties of the command-line tool *)

(** ** [dirname] *)

Lemma lastIndexOf_from_absent (c : ascii) (s : string) (pos last : Z) :
  ~ In c (list_ascii_of_string s) ->
  Cli.lastIndexOf_from c s pos last = last.
Proof.
  revert pos last; induction s as [| a s IH]; intros pos last Hno;
    [reflexivity |].
  cbn [Cli.lastIndexOf_from].
  destruct (Ascii.eqb_spec a c) as [-> | Hne].
  - exfalso. apply Hno. now left.
  - apply IH. intros Hin. apply Hno. now right.
Qed.

Lemma lastIndexOf_from_append (c : ascii) (s1 s2 : string) (pos last : Z) :
  Cli.lastIndexOf_from c (s1 ++ s2) pos last
  = Cli.lastIndexOf_from c s2 (pos + Z.of_nat (String.length s1))
      (Cli.lastIndexOf_from c s1 pos last).
Proof.
  revert pos last; induction s1 as [| a s1 IH]; intros pos last.
  - cbn. now rewrite Z.add_0_r.
  - cbn [String.append Cli.lastIndexOf_from String.length].
    rewrite IH. f_equal. lia.
Qed.

Lemma substring_prefix (s1 s2 : string) :
  substring 0 (String.length s1) (s1 ++ s2) = s1.
Proof.
  induction s1 as [| a s1 IH]; cbn.
  - now destruct s2.
  - now rewrite IH.
Qed.

Lemma length_append (s1 s2 : string) :
  String.length (s1 ++ s2) = (String.length s1 + String.length s2)%nat.
Proof. induction s1 as [| a s1 IH]; cbn; [reflexivity | now rewrite IH]. Qed.

Lemma slice_prefix (s1 s2 : string) :
  Cli.slice (s1 ++ s2) 0 (Z.of_nat (String.length s1)) = s1.
Proof.
  unfold Cli.slice. cbv zeta.
  assert (Hlen : Z.of_nat (String.length s1)
                 <= Z.of_nat (String.length (s1 ++ s2)))
    by (rewrite length_append; lia).
  destruct (Z.ltb_spec 0 0); [lia |].
  destruct (Z.ltb_spec (Z.of_nat (String.length s1)) 0); [lia |].
  rewrite (Z.min_l 0) by lia.
  rewrite (Z.min_l (Z.of_nat (String.length s1))) by lia.
  rewrite Z.sub_0_r, Z.max_l by lia.
  rewrite Nat2Z.id. apply substring_prefix.
Qed.

Lemma slice_empty (s : string) : Cli.slice s 0 0 = ""%string.
Proof.
  unfold Cli.slice. cbv zeta.
  destruct (Z.ltb_spec 0 0); [lia |].
  rewrite Z.min_l by lia. cbn. now destruct s.
Qed.

(** [dirname] cuts a path at its last slash: for a [base] without a
    slash, [dirname (dir ++ "/" ++ base)] is [dir] (so a file directly
    under the root gives the empty string, not ["/"]), and [dirname
    base] is the empty string. *)
Theorem dirname_cuts_at_last_slash (dir base : string) :
  ~ In "/"%char (list_ascii_of_string base) ->
  Cli.dirname (dir ++ "/" ++ base) = dir
  /\ Cli.dirname base = ""%string.
Proof.
  intros Hno. unfold Cli.dirname, Cli.lastIndexOf. split.
  - rewrite lastIndexOf_from_append.
    change ("/" ++ base)%string with (String "/" base).
    cbn [Cli.lastIndexOf_from]. rewrite Ascii.eqb_refl.
    rewrite lastIndexOf_from_absent by exact Hno.
    replace (Z.max 0 (0 + Z.of_nat (String.length dir)))
      with (Z.of_nat (String.length dir)) by lia.
    apply slice_prefix.
  - rewrite lastIndexOf_from_absent by exact Hno.
    apply slice_empty.
Qed.

Lemma dirname_cuts_at_last_slash_witness :
  Cli.dirname "/repo/packages/bot-cli/src/validate.ts"
  = "/repo/packages/bot-cli/src"%string
  /\ Cli.dirname "validate.ts" = ""%string.
Proof.
  apply (dirname_cuts_at_last_slash "/repo/packages/bot-cli/src"
           "validate.ts").
  cbn. intros H.
  repeat (destruct H as [H | H]; [discriminate H |]). exact H.
Defined.

(** ** [validateArgs] and the cached API description *)

(** [validateArgs] looks at the number of arguments only: argument
    lists of one length are treated alike, and a list that is accepted
    stays accepted when arguments are added. *)
Theorem validateArgs_counts_only (host : Cli.Host) (exportName : string)
    (args1 args2 : list JsValue) (validate : bool) (st : Cli.State) :
  (List.length args1 = List.length args2 ->
   Cli.validateArgs host exportName args1 validate st
   = Cli.validateArgs host exportName args2 validate st)
  /\ ((List.length args1 <= List.length args2)%nat ->
      snd (Cli.validateArgs host exportName args1 validate st) = Return tt ->
      Cli.validateArgs host exportName args2 validate st
      = Cli.validateArgs host exportName args1 validate st).
Proof.
  split.
  - intros Hlen. unfold Cli.validateArgs. now rewrite Hlen.
  - intros Hle. unfold Cli.validateArgs.
    destruct validate; cbn [negb]; [| reflexivity].
    unfold Cli.bind.
    destruct (Cli.loadApiSpec host st) as [st' [spec | e]]; [| reflexivity].
    destruct (find _ (Cli.ApiSpec.exports spec)) as [entry |];
      [| reflexivity].
    destruct (negb (String.eqb (Cli.ApiSpec.kind entry) "function"));
      [reflexivity |].
    destruct (Nat.ltb_spec (List.length args1) (Cli.requiredCount entry))
      as [Hlt | Hge]; [discriminate |].
    intros _.
    destruct (Nat.ltb_spec (List.length args2) (Cli.requiredCount entry));
      [lia | reflexivity].
Qed.

Lemma validateArgs_counts_only_witness :
  Cli.validateArgs sample_host "moveMouse"
    [JsNumber 1%Q; JsNumber 2%Q; JsNumber 3%Q] true Cli.initial
  = Cli.validateArgs sample_host "moveMouse"
      [JsNumber 1%Q; JsNumber 2%Q] true Cli.initial.
Proof.
  apply (proj2 (validateArgs_counts_only sample_host "moveMouse"
                  [JsNumber 1%Q; JsNumber 2%Q]
                  [JsNumber 1%Q; JsNumber 2%Q; JsNumber 3%Q]
                  true Cli.initial)).
  - cbn. lia.
  - reflexivity.
Defined.

(** The API description is read at most once: a successful load reads
    the file and caches the result; with a cached description neither
    [loadApiSpec] nor [validateArgs] changes the state, so the file is
    not read again; a failed load caches nothing. *)
Theorem loadApiSpec_caches (host : Cli.Host) (st st' : Cli.State) :
  (forall spec,
     Cli.cachedSpec st = Some spec ->
     Cli.loadApiSpec host st = (st, Return spec)
     /\ forall exportName args validate,
          fst (Cli.validateArgs host exportName args validate st) = st)
  /\ (forall spec,
        Cli.cachedSpec st = None ->
        Cli.loadApiSpec host st = (st', Return spec) ->
        Cli.cachedSpec st' = Some spec
        /\ Cli.reads st' = Cli.apiPath host :: Cli.reads st)
  /\ (forall e,
        Cli.cachedSpec st = None ->
        Cli.loadApiSpec host st = (st', Throw e) ->
        Cli.cachedSpec st' = None).
Proof.
  split; [| split].
  - intros spec Hc.
    assert (Hload : Cli.loadApiSpec host st = (st, Return spec))
      by (unfold Cli.loadApiSpec; now rewrite Hc).
    split; [exact Hload |].
    intros exportName args validate. unfold Cli.validateArgs.
    destruct validate; cbn [negb]; [| reflexivity].
    unfold Cli.bind. rewrite Hload.
    destruct (find _ _) as [entry |]; [| reflexivity].
    destruct (negb _); [reflexivity |].
    destruct (_ <? _)%nat; reflexivity.
  - intros spec Hc. unfold Cli.loadApiSpec. rewrite Hc.
    unfold Cli.bind, Cli.readFile, Cli.lift, Cli.set_cachedSpec, Cli.ret.
    destruct (Cli.fs_readFile host _ _) as [raw | e]; [| discriminate].
    destruct (Cli.JSON_parse_spec host raw) as [spec0 | e]; [| discriminate].
    intros H; inversion H; subst. now split.
  - intros e Hc. unfold Cli.loadApiSpec. rewrite Hc.
    unfold Cli.bind, Cli.readFile, Cli.lift, Cli.set_cachedSpec, Cli.ret.
    destruct (Cli.fs_readFile host _ _) as [raw | e0].
    + destruct (Cli.JSON_parse_spec host raw) as [spec0 | e1];
        [discriminate |].
      intros H; inversion H; subst. exact Hc.
    + intros H; inversion H; subst. exact Hc.
Qed.

Lemma loadApiSpec_caches_witness :
  exists st1,
    Cli.loadApiSpec sample_host Cli.initial = (st1, Return sample_spec)
    /\ Cli.cachedSpec st1 = Some sample_spec
    /\ Cli.reads st1 = [Cli.apiPath sample_host]
    /\ fst (Cli.validateArgs sample_host "moveMouse" [] true st1) = st1.
Proof.
  destruct (Cli.loadApiSpec sample_host Cli.initial) as [st1 c] eqn:Hload.
  assert (Hc : c = Return sample_spec)
    by (vm_compute in Hload; now inversion Hload).
  subst c. exists st1.
  destruct (proj1 (proj2 (loadApiSpec_caches sample_host Cli.initial st1))
              sample_spec eq_refl Hload) as [Hcached Hreads].
  repeat split; [exact Hcached | exact Hreads |].
  apply (proj1 (loadApiSpec_caches sample_host st1 st1) sample_spec Hcached).
Defined.

(** ** [extractBufferField] *)

Lemma lookup_without (key k : string) (props : list (string * JsValue)) :
  Cli.lookup key (Cli.without k props)
  = if String.eqb key k then None else Cli.lookup key props.
Proof.
  unfold Cli.without.
  induction props as [| [k0 v] props IH]; cbn [filter fst Cli.lookup].
  - now destruct (String.eqb key k).
  - destruct (String.eqb_spec k0 k) as [-> | Hne]; cbn [negb Cli.lookup].
    + rewrite IH. destruct (String.eqb_spec key k) as [-> | Hk];
        [reflexivity |].
      destruct (String.eqb_spec k key) as [<- | _]; [contradiction |].
      reflexivity.
    + destruct (String.eqb_spec k0 key) as [-> | Hk0].
      * destruct (String.eqb_spec key k) as [-> | _]; [contradiction |].
        reflexivity.
      * exact IH.
Qed.

(** From an object, [extractBufferField] takes the [image] property
    when it is a [Buffer], else the [buffer] property when that is one,
    else nothing; the remaining properties are all the others,
    unchanged, and no longer hold the extracted key. *)
Theorem extractBufferField_prefers_image
    (props : list (string * JsValue)) :
  (forall image,
     Cli.lookup "image" props = Some (JsBuffer image) ->
     Cli.extractBufferField (JsObject props)
     = Some (image, Cli.without "image" props)
     /\ Cli.lookup "image" (Cli.without "image" props) = None
     /\ forall key, key <> "image"%string ->
          Cli.lookup key (Cli.without "image" props) = Cli.lookup key props)
  /\ (forall buffer,
        (forall image, Cli.lookup "image" props <> Some (JsBuffer image)) ->
        Cli.lookup "buffer" props = Some (JsBuffer buffer) ->
        Cli.extractBufferField (JsObject props)
        = Some (buffer, Cli.without "buffer" props)
        /\ Cli.lookup "buffer" (Cli.without "buffer" props) = None
        /\ forall key, key <> "buffer"%string ->
             Cli.lookup key (Cli.without "buffer" props)
             = Cli.lookup key props)
  /\ ((forall image, Cli.lookup "image" props <> Some (JsBuffer image)) ->
      (forall buffer, Cli.lookup "buffer" props <> Some (JsBuffer buffer)) ->
      Cli.extractBufferField (JsObject props) = None).
Proof.
  split; [| split].
  - intros image Himg. split; [| split].
    + unfold Cli.extractBufferField. cbn. now rewrite Himg.
    + rewrite lookup_without. now rewrite String.eqb_refl.
    + intros key Hkey. rewrite lookup_without.
      now destruct (String.eqb_spec key "image").
  - intros buffer Hno Hbuf. split; [| split].
    + unfold Cli.extractBufferField. cbn.
      destruct (Cli.lookup "image" props) as [[| | | | | b | | |] |] eqn:Hi;
        try (now rewrite Hbuf).
      exfalso. now apply (Hno b).
    + rewrite lookup_without. now rewrite String.eqb_refl.
    + intros key Hkey. rewrite lookup_without.
      now destruct (String.eqb_spec key "buffer").
  - intros Hnoi Hnob. unfold Cli.extractBufferField. cbn.
    destruct (Cli.lookup "image" props) as [[| | | | | b | | |] |] eqn:Hi;
      try (exfalso; now apply (Hnoi b));
      (destruct (Cli.lookup "buffer" props) as [[| | | | | b' | | |] |] eqn:Hb;
       try reflexivity; exfalso; now apply (Hnob b')).
Qed.

Lemma extractBufferField_prefers_image_witness :
  Cli.extractBufferField sample_capture
  = Some ([x89; x50]%byte,
          [("width", JsNumber 2%Q); ("buffer", JsBuffer [x00]%byte)]%string)
  /\ Cli.lookup "buffer"
       (Cli.without "image"
          [("width", JsNumber 2%Q); ("image", JsBuffer [x89; x50]%byte);
           ("buffer", JsBuffer [x00]%byte)]%string)
     = Some (JsBuffer [x00]%byte).
Proof.
  destruct (proj1 (extractBufferField_prefers_image
                     [("width", JsNumber 2%Q);
                      ("image", JsBuffer [x89; x50]%byte);
                      ("buffer", JsBuffer [x00]%byte)]%string)
              [x89; x50]%byte eq_refl) as (Hex & _ & Hrest).
  split; [exact Hex |].
  rewrite Hrest; [reflexivity | discriminate].
Defined.

(** ** [writeResult] *)


(** One step of a case analysis on a run of a command. *)
Ltac step_cmd H :=
  match type of H with
  | (if ?b then _ else _) _ = _ => destruct b eqn:?
  | match ?o with Some _ => _ | None => _ end _ = _ => destruct o eqn:?
  | match ?p with (_, _) => _ end _ = _ => destruct p eqn:?
  | match ?p with (_, _) => _ end = _ => destruct p eqn:?
  | match ?c with Return _ => _ | Throw _ => _ end = _ => destruct c eqn:?
  | match ?u with tt => _ end = _ => destruct u
  | match ?l with [] => _ | _ :: _ => _ end _ = _ => destruct l eqn:?
  end.

(** [writeResult] reads no file, leaves the cached API description
    alone, calls no export, and writes no file unless [out] is given. *)
Lemma writeResult_keeps (host : Cli.Host) (result : JsValue)
    (options : Cli.InvokeOptions.t) (st st' : Cli.State)
    (c : Completion unit) :
  Cli.writeResult host result options st = (st', c) ->
  Cli.cachedSpec st' = Cli.cachedSpec st
  /\ Cli.reads st' = Cli.reads st
  /\ Cli.invocations st' = Cli.invocations st
  /\ (Cli.given (Cli.InvokeOptions.out options) = false ->
      Cli.writes st' = Cli.writes st).
Proof.
  intros Hrun.
  destruct options as [out jsonOutput validate dryRun].
  unfold Cli.writeResult in Hrun.
  cbn [Cli.InvokeOptions.out Cli.InvokeOptions.jsonOutput] in *.
  destruct result as [| | b | q | s | bytes | items | props | n];
    unfold Cli.given in *;
    repeat (first
      [ progress unfold Cli.bind, Cli.writeFile, Cli.stdout_write,
          Cli.throw in Hrun
      | step_cmd Hrun ]);
    try discriminate;
    repeat match goal with
           | H : match Cli.fs_writeFile ?h ?p ?b with _ => _ end = _ |- _ =>
               destruct (Cli.fs_writeFile h p b) as [[] | ?];
               inversion H; subst; clear H
           end;
    inversion Hrun; subst; clear Hrun;
    cbn [Cli.cachedSpec Cli.reads Cli.invocations Cli.stdout Cli.writes];
    repeat split; try reflexivity; intros Hout;
    repeat match goal with
           | H : String.eqb ?s "" = _ |- _ => rewrite H in Hout
           end;
    first [discriminate | congruence].
Qed.



(** ** [invokeExport] *)

(** [validateArgs] prints nothing, writes no file and calls no
    export. *)
Lemma validateArgs_effect (host : Cli.Host) (exportName : string)
    (args : list JsValue) (validate : bool) (st st' : Cli.State)
    (c : Completion unit) :
  Cli.validateArgs host exportName args validate st = (st', c) ->
  Cli.writes st' = Cli.writes st
  /\ Cli.stdout st' = Cli.stdout st
  /\ Cli.invocations st' = Cli.invocations st
  /\ (validate = false -> st' = st).
Proof.
  unfold Cli.validateArgs. destruct validate; cbn [negb].
  - unfold Cli.bind, Cli.loadApiSpec.
    destruct (Cli.cachedSpec st) as [spec |] eqn:Hc.
    + destruct (find _ _) as [entry |];
        [destruct (negb _); [| destruct (_ <? _)%nat] |];
        intros H; inversion H; subst; repeat split; discriminate.
    + unfold Cli.bind, Cli.readFile, Cli.lift, Cli.set_cachedSpec, Cli.ret.
      destruct (Cli.fs_readFile host _ _) as [raw | e];
        [destruct (Cli.JSON_parse_spec host raw) as [spec | e];
         [destruct (find _ _) as [entry |];
          [destruct (negb _); [| destruct (_ <? _)%nat] |] |] |];
        intros H; inversion H; subst; repeat split; discriminate.
  - intros H; inversion H; subst. now repeat split.
Qed.

(** On a dry run [invokeExport] calls no export and writes no file. *)
Lemma invokeExport_dry_run (host : Cli.Host) (exportName : string)
    (args : list JsValue) (options : Cli.InvokeOptions.t)
    (st st' : Cli.State) (c : Completion unit) :
  Cli.set (Cli.InvokeOptions.dryRun options) = true ->
  Cli.invokeExport host exportName args options st = (st', c) ->
  Cli.invocations st' = Cli.invocations st
  /\ Cli.writes st' = Cli.writes st.
Proof.
  intros Hdry. unfold Cli.invokeExport.
  destruct (Cli.lookup exportName (Cli.botjs host))
    as [[| | | | | | | | minArgs] |];
    try (unfold Cli.throw; intros H; inversion H; subst; now split).
  unfold Cli.bind at 1.
  destruct (Cli.validateArgs host exportName args _ st) as [st1 [[] | e]]
    eqn:Hval;
    apply validateArgs_effect in Hval;
    destruct Hval as (Hw1 & _ & Hi1 & _).
  - rewrite Hdry.
    destruct (_ && _ && _);
      [| destruct (Cli.set (Cli.InvokeOptions.jsonOutput options))];
      unfold Cli.throw, Cli.stdout_write;
      intros H; inversion H; subst; now split.
  - intros H; inversion H; subst. now split.
Qed.

(** [invokeExport] calls the export at most once and with the
    arguments as given; on a dry run it calls nothing and writes no
    file; without [out] it writes no file; and a name that is not a
    function among the exports makes it throw before anything is
    loaded, validated, called or printed. *)
Theorem invokeExport_calls_at_most_once (host : Cli.Host)
    (exportName : string) (args : list JsValue)
    (options : Cli.InvokeOptions.t) (st st' : Cli.State)
    (c : Completion unit) :
  Cli.invokeExport host exportName args options st = (st', c) ->
  (Cli.invocations st' = Cli.invocations st
   \/ Cli.invocations st' = (exportName, args) :: Cli.invocations st)
  /\ (Cli.set (Cli.InvokeOptions.dryRun options) = true ->
      Cli.invocations st' = Cli.invocations st
      /\ Cli.writes st' = Cli.writes st)
  /\ (Cli.given (Cli.InvokeOptions.out options) = false ->
      Cli.writes st' = Cli.writes st)
  /\ ((forall n, Cli.lookup exportName (Cli.botjs host)
                 <> Some (JsFunction n)) ->
      st' = st /\ exists message, c = Throw (OtherError message)).
Proof.
  unfold Cli.invokeExport.
  destruct (Cli.lookup exportName (Cli.botjs host))
    as [[| | | | | | | | minArgs] |] eqn:Hfn;
    try (unfold Cli.throw; intros H; inversion H; subst;
         split; [now left |];
         split; [intros _; now split |];
         split; [intros _; reflexivity |];
         intros _; split; [reflexivity | eexists; reflexivity]).
  assert (Hfun : ~ forall n, Some (JsFunction minArgs)
                             <> Some (JsFunction n))
    by (intros Hno; now apply (Hno minArgs)).
  unfold Cli.bind at 1.
  destruct (Cli.validateArgs host exportName args _ st) as [st1 [[] | e]]
    eqn:Hval;
    apply validateArgs_effect in Hval;
    destruct Hval as (Hw1 & Ho1 & Hi1 & _).
  2:{ intros H; inversion H; subst.
      split; [now left |]. split; [intros _; now split |].
      split; [intros _; assumption | intros Hno; contradiction]. }
  destruct (_ && _ && _).
  { unfold Cli.throw. intros H; inversion H; subst.
    split; [now left |]. split; [intros _; now split |].
    split; [intros _; assumption | intros Hno; contradiction]. }
  destruct (Cli.set (Cli.InvokeOptions.dryRun options)) eqn:Hdry.
  { destruct (Cli.set (Cli.InvokeOptions.jsonOutput options));
      unfold Cli.stdout_write; intros H; inversion H; subst;
      cbn [Cli.invocations Cli.writes];
      (split; [now left |]; split; [intros _; now split |];
       split; [intros _; assumption | intros Hno; contradiction]). }
  unfold Cli.bind, Cli.apply_export.
  destruct (Cli.call_export host _ exportName args) as [result | e].
  2:{ intros H; inversion H; subst. cbn [Cli.invocations Cli.writes].
      split; [right; now rewrite Hi1 |]. split; [discriminate |].
      split; [intros _; assumption | intros Hno; contradiction]. }
  intros Hrun. apply writeResult_keeps in Hrun.
  destruct Hrun as (_ & _ & Hi2 & Hout).
  cbn [Cli.invocations Cli.writes Cli.stdout] in Hi2, Hout.
  split; [right; now rewrite Hi2, Hi1 |]. split; [discriminate |].
  split; [| intros Hno; contradiction].
  intros Hgiven. now rewrite (Hout Hgiven).
Qed.

Lemma invokeExport_calls_at_most_once_witness :
  exists st' c,
    Cli.invokeExport sample_host "captureScreen" []
      {| Cli.InvokeOptions.out := Some "shot.png"%string;
         Cli.InvokeOptions.jsonOutput := None;
         Cli.InvokeOptions.validate := None;
         Cli.InvokeOptions.dryRun := Some true |} Cli.initial
    = (st', c)
    /\ Cli.invocations st' = []
    /\ Cli.writes st' = [].
Proof.
  destruct (Cli.invokeExport sample_host "captureScreen" []
              {| Cli.InvokeOptions.out := Some "shot.png"%string;
                 Cli.InvokeOptions.jsonOutput := None;
                 Cli.InvokeOptions.validate := None;
                 Cli.InvokeOptions.dryRun := Some true |} Cli.initial)
    as [st' c] eqn:Hrun.
  exists st', c. split; [reflexivity |].
  apply (proj1 (proj2 (invokeExport_calls_at_most_once _ _ _ _ _ _ _
                         Hrun))).
  reflexivity.
Defined.

(** With [validate: false] nothing is checked: the API description is
    not loaded, and a function among the exports is called with the
    arguments as given, whatever their number or shape, its result
    going to [writeResult]. *)
Theorem invokeExport_without_validation (host : Cli.Host)
    (exportName : string) (args : list JsValue)
    (options : Cli.InvokeOptions.t) (st : Cli.State) (minArgs : nat) :
  Cli.InvokeOptions.validate options = Some false ->
  Cli.lookup exportName (Cli.botjs host) = Some (JsFunction minArgs) ->
  Cli.set (Cli.InvokeOptions.dryRun options) = false ->
  Cli.invokeExport host exportName args options st
  = Cli.bind (Cli.apply_export host exportName args)
      (fun result => Cli.writeResult host result options) st
  /\ Cli.invocations
       (fst (Cli.invokeExport host exportName args options st))
     = (exportName, args) :: Cli.invocations st
  /\ Cli.reads (fst (Cli.invokeExport host exportName args options st))
     = Cli.reads st
  /\ Cli.cachedSpec
       (fst (Cli.invokeExport host exportName args options st))
     = Cli.cachedSpec st.
Proof.
  intros Hval Hfn Hdry.
  assert (Hrun : Cli.invokeExport host exportName args options st
                 = Cli.bind (Cli.apply_export host exportName args)
                     (fun result => Cli.writeResult host result options) st).
  { unfold Cli.invokeExport. rewrite Hfn, Hval.
    unfold Cli.validateArgs. cbn [negb andb].
    unfold Cli.bind at 1, Cli.ret. now rewrite Hdry. }
  split; [exact Hrun |]. rewrite Hrun.
  unfold Cli.bind, Cli.apply_export.
  destruct (Cli.call_export host _ exportName args) as [result | e];
    [| now repeat split].
  destruct (Cli.writeResult host result options _) as [st' c] eqn:Hw.
  apply writeResult_keeps in Hw.
  destruct Hw as (Hc & Hr & Hi & _).
  cbn [fst]. now repeat split.
Qed.

Lemma invokeExport_without_validation_witness :
  Cli.invocations
    (fst (Cli.invokeExport sample_host "moveMouse" [JsObject []]
            {| Cli.InvokeOptions.out := None;
               Cli.InvokeOptions.jsonOutput := None;
               Cli.InvokeOptions.validate := Some false;
               Cli.InvokeOptions.dryRun := None |} Cli.initial))
  = [("moveMouse"%string, [JsObject []])]
  /\ Cli.reads
       (fst (Cli.invokeExport sample_host "moveMouse" [JsObject []]
               {| Cli.InvokeOptions.out := None;
                  Cli.InvokeOptions.jsonOutput := None;
                  Cli.InvokeOptions.validate := Some false;
                  Cli.InvokeOptions.dryRun := None |} Cli.initial))
     = [].
Proof.
  destruct (invokeExport_without_validation sample_host "moveMouse"
              [JsObject []]
              {| Cli.InvokeOptions.out := None;
                 Cli.InvokeOptions.jsonOutput := None;
                 Cli.InvokeOptions.validate := Some false;
                 Cli.InvokeOptions.dryRun := None |} Cli.initial 2
              eq_refl eq_refl eq_refl) as (_ & Hinv & Hreads & _).
  split; [exact Hinv | exact Hreads].
Defined.

(** ** [callCommand] *)

(** [loadArgs] prints nothing, writes no file and calls no export. *)
Lemma loadArgs_effect (host : Cli.Host) (options : Cli.CallOptions.t)
    (st st' : Cli.State) (c : Completion JsValue) :
  Cli.loadArgs host options st = (st', c) ->
  Cli.writes st' = Cli.writes st
  /\ Cli.stdout st' = Cli.stdout st
  /\ Cli.invocations st' = Cli.invocations st
  /\ Cli.cachedSpec st' = Cli.cachedSpec st.
Proof.
  unfold Cli.loadArgs.
  destruct (Cli.given (Cli.CallOptions.json options)).
  { destruct (Cli.CallOptions.json options);
      intros H; inversion H; subst; now repeat split. }
  destruct (Cli.given (Cli.CallOptions.file options)).
  { destruct (Cli.CallOptions.file options) as [file |].
    - unfold Cli.bind, Cli.readFile, Cli.lift.
      destruct (Cli.fs_readFile host _ file);
        intros H; inversion H; subst; now repeat split.
    - intros H; inversion H; subst; now repeat split. }
  destruct (Cli.set (Cli.CallOptions.stdin options)).
  { unfold Cli.bind, Cli.lift.
    destruct (Cli.readStdin host);
      intros H; inversion H; subst; now repeat split. }
  intros H; inversion H; subst; now repeat split.
Qed.

(** A dry run of [callCommand] calls no export and writes no file,
    whatever [out] says. *)
Theorem callCommand_dry_run (host : Cli.Host) (exportName : string)
    (options : Cli.CallOptions.t) (st st' : Cli.State)
    (c : Completion unit) :
  Cli.set (Cli.CallOptions.dryRun options) = true ->
  Cli.callCommand host exportName options st = (st', c) ->
  Cli.invocations st' = Cli.invocations st
  /\ Cli.writes st' = Cli.writes st.
Proof.
  intros Hdry. unfold Cli.callCommand, Cli.bind.
  destruct (Cli.loadArgs host options st) as [st1 [args | e]] eqn:Hload;
    apply loadArgs_effect in Hload;
    destruct Hload as (Hw & _ & Hi & _).
  - intros Hrun.
    destruct (invokeExport_dry_run host exportName _
                (Cli.passed_options options) st1 st' c Hdry Hrun)
      as [Hi2 Hw2].
    split; congruence.
  - intros H; inversion H; subst. now split.
Qed.

Lemma callCommand_dry_run_witness :
  exists st' c,
    Cli.callCommand sample_host "moveMouse"
      {| Cli.CallOptions.json := Some "[1,2]"%string;
         Cli.CallOptions.file := None;
         Cli.CallOptions.stdin := None;
         Cli.CallOptions.out := Some "x.png"%string;
         Cli.CallOptions.jsonOutput := Some true;
         Cli.CallOptions.validate := None;
         Cli.CallOptions.dryRun := Some true |} Cli.initial
    = (st', c)
    /\ c = Return tt
    /\ Cli.invocations st' = []
    /\ Cli.writes st' = [].
Proof.
  destruct (Cli.callCommand sample_host "moveMouse"
              {| Cli.CallOptions.json := Some "[1,2]"%string;
                 Cli.CallOptions.file := None;
                 Cli.CallOptions.stdin := None;
                 Cli.CallOptions.out := Some "x.png"%string;
                 Cli.CallOptions.jsonOutput := Some true;
                 Cli.CallOptions.validate := None;
                 Cli.CallOptions.dryRun := Some true |} Cli.initial)
    as [st' c] eqn:Hrun.
  exists st', c. split; [reflexivity |]. split.
  - vm_compute in Hrun. now inversion Hrun.
  - apply (callCommand_dry_run sample_host "moveMouse"
             {| Cli.CallOptions.json := Some "[1,2]"%string;
                Cli.CallOptions.file := None;
                Cli.CallOptions.stdin := None;
                Cli.CallOptions.out := Some "x.png"%string;
                Cli.CallOptions.jsonOutput := Some true;
                Cli.CallOptions.validate := None;
                Cli.CallOptions.dryRun := Some true |} Cli.initial st' c);
      [reflexivity | exact Hrun].
Defined.

(** [callCommand] cannot tell a lone JSON value that is not an array
    from the one-element array that holds it: both are passed to
    [invokeExport] as the same argument list. *)
Theorem callCommand_wraps_lone_value (host : Cli.Host)
    (exportName : string) (o1 o2 : Cli.CallOptions.t)
    (j1 j2 : string) (v : JsValue) (st : Cli.State) :
  Cli.CallOptions.json o1 = Some j1 -> j1 <> ""%string ->
  Cli.CallOptions.json o2 = Some j2 -> j2 <> ""%string ->
  Cli.JSON_parse host j1 = Return v -> Cli.isArray v = false ->
  Cli.JSON_parse host j2 = Return (JsArray [v]) ->
  Cli.passed_options o1 = Cli.passed_options o2 ->
  Cli.callCommand host exportName o1 st
  = Cli.callCommand host exportName o2 st.
Proof.
  intros H1 Hn1 H2 Hn2 Hp1 Harr Hp2 Hopts.
  unfold Cli.callCommand, Cli.bind, Cli.loadArgs, Cli.given, Cli.lift.
  rewrite H1, H2.
  apply String.eqb_neq in Hn1, Hn2. rewrite Hn1, Hn2. cbn [negb].
  rewrite Hp1, Hp2, Hopts.
  destruct v; try reflexivity. discriminate Harr.
Qed.

Lemma callCommand_wraps_lone_value_witness :
  Cli.callCommand sample_host "findOnScreen"
    {| Cli.CallOptions.json := Some "{}"%string;
       Cli.CallOptions.file := None;
       Cli.CallOptions.stdin := None;
       Cli.CallOptions.out := None;
       Cli.CallOptions.jsonOutput := None;
       Cli.CallOptions.validate := None;
       Cli.CallOptions.dryRun := None |} Cli.initial
  = Cli.callCommand sample_host "findOnScreen"
      {| Cli.CallOptions.json := Some "[{}]"%string;
         Cli.CallOptions.file := None;
         Cli.CallOptions.stdin := None;
         Cli.CallOptions.out := None;
         Cli.CallOptions.jsonOutput := None;
         Cli.CallOptions.validate := None;
         Cli.CallOptions.dryRun := None |} Cli.initial.
Proof.
  apply (callCommand_wraps_lone_value sample_host "findOnScreen" _ _
           "{}" "[{}]" (JsObject []) Cli.initial);
    try reflexivity; discriminate.
Defined.



(** ** The closest matches of an unknown export name *)











